(** * math-pdf-cloud: the document-processing pipeline of [app.py]

    A shallow embedding of [classify_question], [update_progress],
    [extract_single_pdf_to_df], [process_task] and [upload_pdf], and the
    properties of the natural-language specification stated over it. *)

From Stdlib Require Import NArith ZArith Lia List Bool String Ascii.
From Stdlib Require Import SpecFloat.
From stdpp Require Import base option list gmap.

Local Open Scope N_scope.

(** ** Python strings

    A Python [str] is a sequence of Unicode code points. *)

Definition pystr := list N.

(** An ASCII literal of the source, as code points. *)
Definition u (s : string) : pystr := map N_of_ascii (list_ascii_of_string s).

Definition LF : N := 10.

(** [x or y] on strings: the first operand when it is truthy (non-empty). *)
Definition str_or (a b : pystr) : pystr :=
  match a with [] => b | _ => a end.

(** Truthiness of a string. *)
Definition truthy (a : pystr) : bool :=
  match a with [] => false | _ => true end.

(** [sep.join(xs)] *)
Fixpoint join (sep : pystr) (xs : list pystr) : pystr :=
  match xs with
  | [] => []
  | [x] => x
  | x :: rest => x ++ sep ++ join sep rest
  end.

Fixpoint dropwhile (f : N -> bool) (l : pystr) : pystr :=
  match l with
  | c :: t => if f c then dropwhile f t else l
  | [] => []
  end.

(** Decimal rendering of a non-negative integer, as [str(n)] and [%d] do. *)
Definition digit_char (d : N) : N := 48 + d.

Fixpoint digits_fuel (fuel : nat) (n : N) (acc : pystr) : pystr :=
  match fuel with
  | O => acc
  | S f =>
      let acc' := digit_char (n mod 10) :: acc in
      if n / 10 =? 0 then acc' else digits_fuel f (n / 10) acc'
  end.

Definition str_of_N (n : N) : pystr := digits_fuel (S (N.to_nat n)) n [].

(** [%0wd]: zero padded on the left to at least [w] characters. *)
Definition zpad (w : nat) (n : N) : pystr :=
  let s := str_of_N n in
  repeat 48 (w - length s)%nat ++ s.

(** ** Regular expressions of the [re] module

    The fragment of the pattern language the program uses: character
    classes, greedy repetition of a class, the multi-line anchor, sequence,
    ordered alternation and capturing groups. *)

Inductive cls : Type :=
| Space                     (* \s *)
| Digit                     (* \d *)
| OneOf (l : list N)        (* [abc] and literal characters *)
| NoneOf (l : list N).      (* [^abc] *)

Inductive regex : Type :=
| Eps
| Chr (c : cls)
| Rep (c : cls) (lo : nat)  (* c{lo,} greedy: c* is lo = 0, c+ is lo = 1 *)
| Bol                       (* ^ under (?m) *)
| Cat (a b : regex)
| Alt (a b : regex)
| Grp (i : nat) (a : regex).

Definition lit (l : pystr) : regex :=
  foldr (fun c r => Cat (Chr (OneOf [c])) r) Eps l.

Fixpoint alts (rs : list regex) : regex :=
  match rs with
  | [] => Eps
  | [r] => r
  | r :: rest => Alt r (alts rest)
  end.

Definition mem (c : N) (l : list N) : bool := existsb (N.eqb c) l.

(** The state of a match attempt: the character before the cursor, the text
    from the cursor on, and the groups captured so far (latest first). *)
Record mstate : Type := MState {
  prev : option N;
  rest : pystr;
  caps : list (nat * pystr)
}.

Definition group (i : nat) (s : mstate) : pystr :=
  match find (fun p => Nat.eqb (fst p) i) (caps s) with
  | Some p => snd p
  | None => []
  end.


(** ** Values of the pipeline *)

(** The outcome of a call that may raise: the value, or the string form
    [str(e)] of the exception. *)
Inductive result (A : Type) : Type :=
| Ok (a : A)
| Raise (e : pystr).
Arguments Ok {A} a.
Arguments Raise {A} e.

(** What the PDF library gives for one embedded image of a page:
    [doc.extract_image(xref)] (its ["ext"] entry when there is one) and the
    exception, if any, raised while the bytes are written out. *)
Record EmbeddedImage : Type := {
  extract_image : result (option pystr);
  write_image : option pystr
}.

(** What the PDF, imaging and OCR libraries give for one page. *)
Record Page : Type := {
  get_text : pystr;                  (* page.get_text("text") *)
  get_pixmap : option pystr;         (* rendering raises *)
  ocr_chi_sim_eng : result pystr;    (* image_to_string(img, lang='chi_sim+eng') *)
  ocr_eng : result pystr;            (* image_to_string(img, lang='eng') *)
  img_save : option pystr;           (* img.save(page_img_path) raises *)
  get_images : list EmbeddedImage    (* page.get_images(full=True) *)
}.

(** One row of the result table: the dict appended to [rows]. *)
Record Row : Type := {
  source_file : pystr;
  page : Z;
  raw_text : pystr;
  question_type : pystr;
  inline_equations : pystr;
  local_images : pystr
}.

Inductive cell : Type :=
| CStr (s : pystr)
| CInt (n : Z).

(** [pd.DataFrame(rows)] for a list of dicts: the columns are the keys of
    the dicts, so a frame built from no dict at all has no column. *)
Record DataFrame : Type := {
  columns : list pystr;
  data : list (list cell)
}.

Definition row_keys : list pystr :=
  [u "source_file"; u "page"; u "raw_text"; u "question_type";
   u "inline_equations"; u "local_images"].

Definition row_values (r : Row) : list cell :=
  [CStr (source_file r); CInt (page r); CStr (raw_text r);
   CStr (question_type r); CStr (inline_equations r); CStr (local_images r)].

Definition mkDataFrame (rows : list Row) : DataFrame :=
  match rows with
  | [] => {| columns := []; data := [] |}
  | _ => {| columns := row_keys; data := map row_values rows |}
  end.

(** The sheet [df.to_excel(path, index=False)] writes: a header row made of
    the column names, then the data rows. *)
Record Sheet : Type := {
  header : list pystr;
  body : list (list cell)
}.

Definition to_excel (df : DataFrame) : Sheet :=
  {| header := columns df; body := data df |}.

(** ** Jobs *)

Inductive Status : Type := queued | processing | done | error.

#[global] Instance status_eq_dec : EqDecision Status.
Proof. solve_decision. Defined.

Record Job : Type := {
  status : Status;
  percent : Z;
  log : list pystr;
  file : option pystr
}.

Definition set_status (v : Status) (j : Job) : Job :=
  {| status := v; percent := percent j; log := log j; file := file j |}.
Definition set_percent (v : Z) (j : Job) : Job :=
  {| status := status j; percent := v; log := log j; file := file j |}.
Definition set_file (v : option pystr) (j : Job) : Job :=
  {| status := status j; percent := percent j; log := log j; file := v |}.
Definition log_append (m : pystr) (j : Job) : Job :=
  {| status := status j; percent := percent j; log := log j ++ [m]; file := file j |}.

(** One assignment to a field of [tasks[task_id]], or the creation of the
    entry. *)
Inductive Write : Type :=
| WStatus (v : Status)
| WPercent (v : Z)
| WLog (m : pystr)
| WFile (v : pystr)
| WNew (j : Job).

Definition apply_write (w : Write) (j : Job) : Job :=
  match w with
  | WStatus v => set_status v j
  | WPercent v => set_percent v j
  | WLog m => log_append m j
  | WFile v => set_file (Some v) j
  | WNew j' => j'
  end.

(** The process-wide state: the [tasks] registry, the files on disk (uploads
    and result sheets), the number of clock readings so far, and the writes
    made to the registry, oldest first, as a polling client could observe
    them. *)
Record World : Type := {
  tasks : gmap pystr Job;
  uploads : gmap pystr (list N);
  outputs : gmap pystr Sheet;
  ticks : nat;
  writes : list (pystr * Write)
}.

(** ** Time stamps *)

Record datetime : Type := {
  year : N; month : N; day : N;
  hour : N; minute : N; second : N; microsecond : N
}.

(** [datetime.isoformat()]: YYYY-MM-DDTHH:MM:SS, then .ffffff unless the
    microsecond is 0. *)
Definition isoformat (d : datetime) : pystr :=
  zpad 4 (year d) ++ u "-" ++ zpad 2 (month d) ++ u "-" ++ zpad 2 (day d)
  ++ u "T" ++ zpad 2 (hour d) ++ u ":" ++ zpad 2 (minute d) ++ u ":"
  ++ zpad 2 (second d)
  ++ (if microsecond d =? 0 then [] else u "." ++ zpad 6 (microsecond d)).

(** ** Floating point

    [int((pno+1)/total*100)] is computed in IEEE 754 binary64: the true
    division of two ints is the correctly rounded quotient, the product
    with 100 is rounded again, and [int] truncates. *)

Definition float_of_int (n : Z) : spec_float := binary_normalize 53 1024 n 0 false.
Definition true_div (a b : Z) : spec_float :=
  SFdiv 53 1024 (float_of_int a) (float_of_int b).
Definition float_mul (x y : spec_float) : spec_float := SFmul 53 1024 x y.

(** [int(x)] on a finite float; the other floats do not arise from a
    quotient of page numbers. *)
Definition int_of_float (x : spec_float) : Z :=
  match x with
  | S754_finite s m e =>
      let a := if (0 <=? e)%Z then (Zpos m * 2 ^ e)%Z else (Zpos m / 2 ^ (- e))%Z in
      if s then (- a)%Z else a
  | _ => 0%Z
  end.

(** [int(done/total*100)] *)
Definition pct (pages_done total : Z) : Z :=
  int_of_float (float_mul (true_div pages_done total) (float_of_int 100)).

(** ** Hexadecimal

    [n] on [w] lower-case hexadecimal digits, as the escapes of [repr]
    write a code point. *)
Definition SQUOTE : N := 0x27.
Definition DQUOTE : N := 0x22.

Definition hex_digit (d : N) : N := if d <? 10 then 48 + d else 87 + d.

Fixpoint hex_fixed (w : nat) (n : N) : pystr :=
  match w with
  | O => []
  | S w' => hex_fixed w' (n / 16) ++ [hex_digit (n mod 16)]
  end.

(** ** Paths *)

Definition SEP : N := 0x2F.
Definition DOT : N := 0x2E.

Definition startswith (pre s : pystr) : bool :=
  if decide (take (length pre) s = pre) then true else false.

Definition endswith (suf s : pystr) : bool :=
  if decide (drop (length s - length suf) s = suf)
  then (length suf <=? length s)%nat else false.

(** [os.path.join(a, b)] *)
Definition os_path_join (a b : pystr) : pystr :=
  if startswith [SEP] b then b
  else if orb (negb (truthy a)) (endswith [SEP] a) then a ++ b
  else a ++ [SEP] ++ b.

(** The text after the last occurrence of [c], or the whole text. *)
Fixpoint after_last (c : N) (s : pystr) : pystr :=
  match s with
  | [] => []
  | x :: t => if mem c t then after_last c t
              else if x =? c then t else x :: t
  end.

(** [os.path.basename(p)] *)
Definition basename (p : pystr) : pystr := after_last SEP p.

(** [os.path.splitext(name)[0]] for a name without separator: the part
    before the last dot, unless only dots come before it. *)
Definition splitext_root (name : pystr) : pystr :=
  if mem DOT name then
    let root := take (length name - S (length (after_last DOT name))) name in
    if forallb (N.eqb DOT) root then name else root
  else name.

(** [s.lower()] on the ASCII letters; no character outside ASCII lowers to
    one of [.], [p], [d], [f]. *)
Definition lower (s : pystr) : pystr :=
  map (fun c => if (65 <=? c) && (c <=? 90) then c + 32 else c) s.

(** [str(n)] for a non-negative Python int. *)
Definition str_of_int (n : Z) : pystr := str_of_N (Z.to_N n).

(** ** Requests and responses *)

Inductive Response : Type :=
| JSONError (code : Z) (msg : pystr)   (* JSONResponse({"error": msg}, status_code=code) *)
| TaskId (task_id : pystr).            (* {"task_id": task_id} *)

(** What the two polling routes answer: an error, the dict of the job, or
    the result file. *)
Inductive Reply : Type :=
| JSONResponse (code : Z) (msg : pystr)   (* JSONResponse({"error": msg}, status_code=code) *)
| JobDict (t : Job)                       (* the entry of the registry itself *)
| FileResponse (path filename media_type : pystr).

Definition XLSX_MEDIA : pystr :=
  u "application/vnd.openxmlformats-officedocument.spreadsheetml.sheet".

(** One upload request: the file name and bytes sent, the two values
    [uuid.uuid4().hex] takes, and the exception raised while the bytes are
    stored, if any. *)
Record Upload : Type := {
  filename : pystr;
  content : list N;
  uuid_file : pystr;
  uuid_task : pystr;
  store_error : option pystr
}.

(** ** Sample environment

    A concrete server, used to run the definitions on examples: no
    character beyond ASCII in the Unicode tables, a clock that advances by
    a microsecond per reading, and a PDF library that opens four files. *)

Definition ascii_tables : N -> bool := fun _ => false.

Definition sample_base : pystr := u "/srv".

Definition sample_clock (n : nat) : datetime :=
  {| year := 2024; month := 1; day := 2; hour := 3; minute := 4; second := 5;
     microsecond := N.of_nat n |}.

Definition text_page (t : pystr) : Page :=
  {| get_text := t; get_pixmap := None; ocr_chi_sim_eng := Ok [];
     ocr_eng := Ok []; img_save := None; get_images := [] |}.

Definition blank_sample_page : Page := text_page [].

(** A page on which both recognition calls raise. *)
Definition ocr_dead_page : Page :=
  {| get_text := u "1. solve"; get_pixmap := None;
     ocr_chi_sim_eng := Raise (u "chi_sim not installed");
     ocr_eng := Raise (u "tesseract is not installed");
     img_save := None; get_images := [] |}.

Definition sample_open (bytes : option (list N)) : result (list Page) :=
  match bytes with
  | Some [1] =>
      Ok [text_page (u "1. foo $x$" ++ [LF] ++ u "2. bar A."); blank_sample_page]
  | Some [2] => Ok [blank_sample_page]
  | Some [3] => Ok [ocr_dead_page]
  | Some [4] => Ok (repeat blank_sample_page 101)
  | _ => Raise (u "cannot open broken document")
  end.

Definition sample_excel (path : pystr) : option pystr := None.

Definition sample_upload (bytes : list N) : Upload :=
  {| filename := u "a.PDF"; content := bytes; uuid_file := u "ff";
     uuid_task := u "tt"; store_error := None |}.

(** An upload whose name puts the file in a directory that does not
    exist: the bytes cannot be stored. *)
Definition unstorable_upload : Upload :=
  {| filename := u "x/y.pdf"; content := [1]; uuid_file := u "ff";
     uuid_task := u "tt";
     store_error :=
       Some (u "[Errno 2] No such file or directory: '/srv/uploads/ff_x/y.pdf'")
  |}.

Definition sample_path : pystr := u "/srv/uploads/ff_a.PDF".

Definition sample_job : Job :=
  {| status := queued; percent := 0; log := [u "uploaded a.PDF"];
     file := None |}.

Definition empty_world : World :=
  {| tasks := ∅; uploads := ∅; outputs := ∅; ticks := 0; writes := [] |}.

(** The state after the upload of the bytes. *)
Definition sample_world (bytes : list N) : World :=
  {| tasks := {[ u "tt" := sample_job ]};
     uploads := {[ sample_path := bytes ]};
     outputs := ∅; ticks := 0; writes := [] |}.

Section App.

(** The character tables of the interpreter's Unicode database beyond ASCII
    ([Py_UNICODE_ISSPACE], [Py_UNICODE_ISDECIMAL]); they vary with the Unicode
    version and are left open. On ASCII both are fixed. *)
Variable uni_space : N -> bool.
Variable uni_decimal : N -> bool.

Definition isspace (c : N) : bool :=
  if c <? 128
  then ((9 <=? c) && (c <=? 13)) || ((28 <=? c) && (c <=? 32))
  else uni_space c.

Definition isdecimal (c : N) : bool :=
  if c <? 128 then (48 <=? c) && (c <=? 57) else uni_decimal c.

(** [s.strip()] *)
Definition lstrip (s : pystr) : pystr := dropwhile isspace s.
Definition rstrip (s : pystr) : pystr := rev (dropwhile isspace (rev s)).
Definition strip (s : pystr) : pystr := rstrip (lstrip s).

Definition in_cls (k : cls) (c : N) : bool :=
  match k with
  | Space => isspace c
  | Digit => isdecimal c
  | OneOf l => mem c l
  | NoneOf l => negb (mem c l)
  end.

(** Greedy repetition: take as many characters of the class as possible and
    give them back one at a time while the continuation fails. *)
Fixpoint rep (k : cls) (lo : nat) (p : option N) (l : pystr)
    (cs : list (nat * pystr)) (cont : mstate -> option mstate) : option mstate :=
  let stop := if Nat.eqb lo 0 then cont (MState p l cs) else None in
  match l with
  | c :: t =>
      if in_cls k c then
        match rep k (Nat.pred lo) (Some c) t cs cont with
        | Some r => Some r
        | None => stop
        end
      else stop
  | [] => stop
  end.

(** The backtracking matcher, in continuation-passing style: alternatives
    are tried left to right, and a failure of what follows makes the
    matcher try the next possibility. *)
Fixpoint rmatch (r : regex) (s : mstate) (cont : mstate -> option mstate)
    : option mstate :=
  match r with
  | Eps => cont s
  | Chr k =>
      match rest s with
      | c :: t => if in_cls k c then cont (MState (Some c) t (caps s)) else None
      | [] => None
      end
  | Rep k lo => rep k lo (prev s) (rest s) (caps s) cont
  | Bol =>
      match prev s with
      | None => cont s
      | Some c => if c =? LF then cont s else None
      end
  | Cat a b => rmatch a s (fun s' => rmatch b s' cont)
  | Alt a b =>
      match rmatch a s cont with
      | Some r => Some r
      | None => rmatch b s cont
      end
  | Grp i a =>
      rmatch a s (fun s' =>
        cont (MState (prev s') (rest s')
                ((i, take (length (rest s) - length (rest s')) (rest s))
                   :: caps s')))
  end.

(** The leftmost match at or after the cursor: the text skipped before it
    and the state at its end. *)
Fixpoint search_from (r : regex) (p : option N) (l : pystr)
    : option (pystr * mstate) :=
  match rmatch r (MState p l []) Some with
  | Some s' => Some ([], s')
  | None =>
      match l with
      | [] => None
      | c :: t =>
          match search_from r (Some c) t with
          | Some (pre, s') => Some (c :: pre, s')
          | None => None
          end
      end
  end.

(** [re.search(r, text)] as a truth value. *)
Definition re_search (r : regex) (text : pystr) : bool :=
  match search_from r None text with Some _ => true | None => false end.

(** [re.split(r, text)] for a pattern without groups. The patterns of this
    program never match the empty string, so a scan step always advances;
    the fuel bounds the number of matches by the length of the text. *)
Fixpoint split_from (fuel : nat) (r : regex) (p : option N) (l : pystr)
    : list pystr :=
  match fuel with
  | O => [l]
  | S f =>
      match search_from r p l with
      | None => [l]
      | Some (pre, s') => pre :: split_from f r (prev s') (rest s')
      end
  end.

Definition re_split (r : regex) (text : pystr) : list pystr :=
  split_from (length text) r None text.

(** [re.findall(r, text)] for a pattern with two groups: one pair per
    match, an unmatched group being the empty string. *)
Fixpoint findall_from (fuel : nat) (r : regex) (p : option N) (l : pystr)
    : list (pystr * pystr) :=
  match fuel with
  | O => []
  | S f =>
      match search_from r p l with
      | None => []
      | Some (_, s') => (group 1 s', group 2 s') :: findall_from f r (prev s') (rest s')
      end
  end.

Definition re_findall (r : regex) (text : pystr) : list (pystr * pystr) :=
  findall_from (length text) r None text.

(** ** classify_question *)

(* 选择|A\.|B\.|C\.|D\. *)
Definition tok_choose : pystr := [0x9009; 0x62E9].        (* 选择 *)
Definition choice_tokens : list pystr :=
  [tok_choose; u "A."; u "B."; u "C."; u "D."].
Definition choice_re : regex := alts (map lit choice_tokens).

(* [_＿]{2,}|填空|空格 *)
Definition blank_chars : list N := [0x5F; 0xFF3F].         (* _ ＿ *)
Definition tok_fill : pystr := [0x586B; 0x7A7A].           (* 填空 *)
Definition tok_space : pystr := [0x7A7A; 0x683C].          (* 空格 *)
Definition blank_re : regex :=
  Alt (Rep (OneOf blank_chars) 2) (Alt (lit tok_fill) (lit tok_space)).

Definition label_choice : pystr := [0x9009; 0x62E9; 0x9898].   (* 选择题 *)
Definition label_blank : pystr := [0x586B; 0x7A7A; 0x9898].    (* 填空题 *)
Definition label_free : pystr := [0x89E3; 0x7B54; 0x9898].     (* 解答题 *)

Definition classify_question (text : option pystr) : pystr :=
  let t := strip (match text with Some s => str_or s [] | None => [] end) in
  if re_search choice_re t then label_choice
  else if re_search blank_re t then label_blank
  else label_free.

(** ** The splitting and equation patterns of [extract_single_pdf_to_df] *)

(* (?m)^(?:\s*\d+[\.\、]|\s*[一二三四五六七八九十]+[、．]) *)
Definition cjk_numerals : list N :=
  [0x4E00; 0x4E8C; 0x4E09; 0x56DB; 0x4E94; 0x516D; 0x4E03; 0x516B; 0x4E5D; 0x5341].
Definition marker_re : regex :=
  Cat Bol
    (Alt (Cat (Rep Space 0) (Cat (Rep Digit 1) (Chr (OneOf [0x2E; 0x3001]))))
         (Cat (Rep Space 0)
            (Cat (Rep (OneOf cjk_numerals) 1) (Chr (OneOf [0x3001; 0xFF0E]))))).

(* \$([^$]+)\$|\\\(([^)]+)\\\) *)
Definition DOLLAR : N := 0x24.
Definition BACKSLASH : N := 0x5C.
Definition LPAREN : N := 0x28.
Definition RPAREN : N := 0x29.
Definition equation_re : regex :=
  Alt (Cat (Chr (OneOf [DOLLAR]))
         (Cat (Grp 1 (Rep (NoneOf [DOLLAR]) 1)) (Chr (OneOf [DOLLAR]))))
      (Cat (lit [BACKSLASH; LPAREN])
         (Cat (Grp 2 (Rep (NoneOf [RPAREN]) 1)) (lit [BACKSLASH; RPAREN]))).

(** [eqs = [a or b for a, b in inlined_eqs if a or b]] *)
Definition eqs_of_chunk (chunk : pystr) : list pystr :=
  map (fun ab => str_or (fst ab) (snd ab))
    (filter (fun ab => truthy (str_or (fst ab) (snd ab)) = true)
       (re_findall equation_re chunk)).

(** ** The environment of the server *)

Variable BASE_DIR : pystr.
(** [datetime.datetime.utcnow()] at the n-th reading of the clock. *)
Variable utcnow : nat -> datetime.
(** [fitz.open(path)] on the bytes stored at the path, if any: the pages of
    the document, or the exception. *)
Variable fitz_open : option (list N) -> result (list Page).
(** The exception [df.to_excel(path)] raises for a path, if any. *)
Variable excel_error : pystr -> option pystr.

Definition UPLOAD_DIR : pystr := os_path_join BASE_DIR (u "uploads").
Definition OUTPUT_DIR : pystr := os_path_join BASE_DIR (u "outputs").
Definition IMG_DIR : pystr := os_path_join BASE_DIR (u "images").

(** ** Computations over the process state, with exceptions *)

Definition M (A : Type) : Type := World -> result A * World.

Definition ret {A} (a : A) : M A := fun w => (Ok a, w).
Definition raise {A} (e : pystr) : M A := fun w => (Raise e, w).
Definition bind {A B} (c : M A) (f : A -> M B) : M B :=
  fun w => match c w with
           | (Ok a, w') => f a w'
           | (Raise e, w') => (Raise e, w')
           end.
(** [try: c except Exception as e: h(e)] *)
Definition try_except {A} (c : M A) (h : pystr -> M A) : M A :=
  fun w => match c w with
           | (Ok a, w') => (Ok a, w')
           | (Raise e, w') => h e w'
           end.
(** A library call whose outcome the environment fixes. *)
Definition lift {A} (r : result A) : M A := fun w => (r, w).
Definition check (r : option pystr) : M unit :=
  match r with None => ret tt | Some e => raise e end.

Notation "x <- c ;; k" := (bind c (fun x => k))
  (at level 100, c at next level, right associativity).
Notation "c ;;; k" := (bind c (fun _ => k))
  (at level 100, right associativity).

(** ** [repr] of a string

    [unicode_repr]: the text between single quotes, or between double
    quotes when it holds a single quote and no double quote; the quote in
    use and the backslash are escaped, tab, line feed and carriage return
    are written [\t], [\n], [\r], the other ASCII control characters and
    the characters beyond ASCII that are not printable are written in
    hexadecimal. The table of printable characters beyond ASCII
    ([Py_UNICODE_ISPRINTABLE]) varies with the Unicode version and is left
    open. *)
Variable uni_printable : N -> bool.

Definition repr_char (quote c : N) : pystr :=
  if (c =? quote) || (c =? BACKSLASH) then [BACKSLASH; c]
  else if c =? 0x09 then [BACKSLASH; 0x74]
  else if c =? 0x0A then [BACKSLASH; 0x6E]
  else if c =? 0x0D then [BACKSLASH; 0x72]
  else if (c <? 0x20) || (c =? 0x7F) then [BACKSLASH; 0x78] ++ hex_fixed 2 c
  else if c <? 0x7F then [c]
  else if uni_printable c then [c]
  else if c <=? 0xFF then [BACKSLASH; 0x78] ++ hex_fixed 2 c
  else if c <=? 0xFFFF then [BACKSLASH; 0x75] ++ hex_fixed 4 c
  else [BACKSLASH; 0x55] ++ hex_fixed 8 c.

Definition repr_str (s : pystr) : pystr :=
  let quote :=
    if mem SQUOTE s && negb (mem DQUOTE s) then DQUOTE else SQUOTE in
  [quote] ++ concat (map (repr_char quote) s) ++ [quote].

(** [str(KeyError(k))] is the repr of the key. *)
Definition key_error (k : pystr) : pystr := repr_str k.

(** [tasks[task_id][field] = v] and [tasks[task_id]['log'].append(m)]: a
    [KeyError] when the handle is unknown. *)
Definition write_job (task_id : pystr) (wr : Write) : M unit :=
  fun w =>
    match tasks w !! task_id with
    | None => (Raise (key_error task_id), w)
    | Some j =>
        (Ok tt,
         {| tasks := <[task_id := apply_write wr j]> (tasks w);
            uploads := uploads w; outputs := outputs w; ticks := ticks w;
            writes := writes w ++ [(task_id, wr)] |})
    end.

Definition now : M datetime :=
  fun w =>
    (Ok (utcnow (ticks w)),
     {| tasks := tasks w; uploads := uploads w; outputs := outputs w;
        ticks := S (ticks w); writes := writes w |}).

Definition has_task (task_id : pystr) : M bool :=
  fun w => (Ok (bool_decide (is_Some (tasks w !! task_id))), w).

(** ** update_progress *)

Definition update_progress (task_id : pystr) (percent : option Z)
    (message : option pystr) : M unit :=
  known <- has_task task_id ;;
  if negb known then ret tt
  else
    (match percent with
     | Some p => write_job task_id (WPercent p)
     | None => ret tt
     end) ;;;
    match message with
    | Some m =>
        if truthy m then
          t <- now ;;
          write_job task_id (WLog (isoformat t ++ u " " ++ m))
        else ret tt
    | None => ret tt
    end.

(** ** extract_single_pdf_to_df *)

(** The text recognised on a page: the primary profile, and on any
    exception the Latin-only one, whose exception is not handled. *)
Definition ocr (pg : Page) : result pystr :=
  match ocr_chi_sim_eng pg with
  | Ok t => Ok t
  | Raise _ => ocr_eng pg
  end.

(** The loop over [enumerate(image_list)]. *)
Fixpoint save_images (stem : pystr) (pno1 : Z) (ii : nat)
    (imgs : list EmbeddedImage) (saved : list pystr) : result (list pystr) :=
  match imgs with
  | [] => Ok saved
  | im :: more =>
      match extract_image im with
      | Raise e => Raise e
      | Ok ext =>
          let ext := match ext with Some x => x | None => u "png" end in
          let img_name :=
            stem ++ u "_p" ++ str_of_int pno1 ++ u "_"
              ++ str_of_int (Z.of_nat ii) ++ u "." ++ ext in
          let img_path := os_path_join IMG_DIR img_name in
          match write_image im with
          | Some e => Raise e
          | None => save_images stem pno1 (S ii) more (saved ++ [img_path])
          end
      end
  end.

(** The rows of one page: the loop over [enumerate(chunks)]. *)
Fixpoint chunk_rows (src : pystr) (pno1 : Z) (images : pystr)
    (chunks : list pystr) (rows : list Row) : list Row :=
  match chunks with
  | [] => rows
  | chunk :: more =>
      let chunk := strip chunk in
      if negb (truthy chunk) then chunk_rows src pno1 images more rows
      else
        let eqs := eqs_of_chunk chunk in
        chunk_rows src pno1 images more
          (rows ++ [{| source_file := src;
                       page := pno1;
                       raw_text := chunk;
                       question_type := classify_question (Some chunk);
                       inline_equations := join (u ";") eqs;
                       local_images := images |}])
  end.

(** The body of the page loop up to the progress report: the rows with
    those of the page appended. *)
Definition page_rows (pdf_path : pystr) (pno : nat) (pg : Page)
    (rows : list Row) : result (list Row) :=
  let text := str_or (get_text pg) [] in
  match get_pixmap pg with
  | Some e => Raise e
  | None =>
      match ocr pg with
      | Raise e => Raise e
      | Ok ocr_text =>
          let combined_text := strip (text ++ [LF] ++ ocr_text) in
          let pno1 := Z.of_nat (S pno) in
          let page_img_path :=
            os_path_join IMG_DIR
              (basename pdf_path ++ u "_p" ++ str_of_int pno1 ++ u ".png") in
          match img_save pg with
          | Some e => Raise e
          | None =>
              match save_images (splitext_root (basename pdf_path)) pno1 0
                      (get_images pg) [] with
              | Raise e => Raise e
              | Ok saved_images =>
                  let chunks := re_split marker_re combined_text in
                  Ok (chunk_rows (basename pdf_path) pno1
                        (join (u ";") (saved_images ++ [page_img_path]))
                        chunks rows)
              end
          end
      end
  end.

(** [for pno in range(total)], from page [pno] on. *)
Fixpoint page_loop (pdf_path : pystr) (task_id : option pystr) (total : Z)
    (pno : nat) (pgs : list Page) (rows : list Row) : M (list Row) :=
  match pgs with
  | [] => ret rows
  | pg :: more =>
      rows' <- lift (page_rows pdf_path pno pg rows) ;;
      (match task_id with
       | Some tid =>
           if truthy tid then
             update_progress tid (Some (pct (Z.of_nat (S pno)) total))
               (Some (u "processed page " ++ str_of_int (Z.of_nat (S pno))
                        ++ u "/" ++ str_of_int total))
           else ret tt
       | None => ret tt
       end) ;;;
      page_loop pdf_path task_id total (S pno) more rows'
  end.

Definition read_upload (path : pystr) : M (option (list N)) :=
  fun w => (Ok (uploads w !! path), w).

Definition extract_single_pdf_to_df (pdf_path : pystr)
    (task_id : option pystr) : M DataFrame :=
  bytes <- read_upload pdf_path ;;
  doc <- lift (fitz_open bytes) ;;
  let total := Z.of_nat (length doc) in
  rows <- page_loop pdf_path task_id total 0 doc [] ;;
  ret (mkDataFrame rows).

(** ** process_task *)

Definition write_sheet (path : pystr) (df : DataFrame) : M unit :=
  fun w =>
    match excel_error path with
    | Some e => (Raise e, w)
    | None =>
        (Ok tt,
         {| tasks := tasks w; uploads := uploads w;
            outputs := <[path := to_excel df]> (outputs w);
            ticks := ticks w; writes := writes w |})
    end.

Definition process_task (task_id saved_path : pystr) : M unit :=
  try_except
    (write_job task_id (WStatus processing) ;;;
     update_progress task_id (Some 1%Z) (Some (u "start processing")) ;;;
     df <- extract_single_pdf_to_df saved_path (Some task_id) ;;
     let out_path :=
       os_path_join OUTPUT_DIR (u "result_" ++ task_id ++ u ".xlsx") in
     write_sheet out_path df ;;;
     write_job task_id (WStatus done) ;;;
     write_job task_id (WFile out_path) ;;;
     update_progress task_id (Some 100%Z) (Some (u "finished processing")))
    (fun e =>
       write_job task_id (WStatus error) ;;;
       write_job task_id (WLog e)).

(** ** upload_pdf *)

Definition store_upload (path : pystr) (up : Upload) : M unit :=
  fun w =>
    match store_error up with
    | Some e => (Raise e, w)
    | None =>
        (Ok tt,
         {| tasks := tasks w;
            uploads := <[path := content up]> (uploads w);
            outputs := outputs w; ticks := ticks w; writes := writes w |})
    end.

Definition new_job (up : Upload) : Job :=
  {| status := queued; percent := 0;
     log := [u "uploaded " ++ filename up]; file := None |}.

Definition create_job (task_id : pystr) (j : Job) : M unit :=
  fun w =>
    (Ok tt,
     {| tasks := <[task_id := j]> (tasks w);
        uploads := uploads w; outputs := outputs w; ticks := ticks w;
        writes := writes w ++ [(task_id, WNew j)] |}).

(** The response, and the call handed to the executor if any. *)
Definition upload_pdf (up : Upload) : M (Response * option (pystr * pystr)) :=
  if negb (endswith (u ".pdf") (lower (filename up))) then
    ret (JSONError 400 (u "Only PDF files are allowed"), None)
  else
    let fname := uuid_file up ++ u "_" ++ filename up in
    let save_path := os_path_join UPLOAD_DIR fname in
    store_upload save_path up ;;;
    let task_id := uuid_task up in
    create_job task_id (new_job up) ;;;
    ret (TaskId task_id, Some (task_id, save_path)).

(** [get_progress] and [download_result] only read the registry. The dict
    of a job is never empty, so [not t] holds for an unknown handle only. *)
Definition get_progress (task_id : pystr) (w : World) : Reply :=
  match tasks w !! task_id with
  | None => JSONResponse 404 (u "task not found")
  | Some t => JobDict t
  end.

Definition download_result (task_id : pystr) (w : World) : Reply :=
  match tasks w !! task_id with
  | None => JSONResponse 404 (u "task not found")
  | Some t =>
      match file t with
      | Some f =>
          if negb (bool_decide (status t = done)) || negb (truthy f)
          then JSONResponse 400 (u "not ready")
          else FileResponse f (basename f) XLSX_MEDIA
      | None => JSONResponse 400 (u "not ready")
      end
  end.

(** The upload of a file followed by the run of the scheduled call. *)
Definition submit_and_run (up : Upload) : M Response :=
  r <- upload_pdf up ;;
  match snd r with
  | Some (task_id, save_path) => process_task task_id save_path ;;; ret (fst r)
  | None => ret (fst r)
  end.

(** The states a job goes through under a sequence of writes. *)
Fixpoint replay (j : Job) (ws : list Write) : list Job :=
  match ws with
  | [] => [j]
  | w :: more => j :: replay (apply_write w j) more
  end.

(** ** What a pattern matches

    The words a pattern matches after a given previous character, stated
    without reference to the matcher. *)

(** The character before the cursor once [w] has been read. *)
Definition last_of (p : option N) (w : pystr) : option N :=
  match last w with Some c => Some c | None => p end.

Fixpoint Matches (r : regex) (p : option N) (w : pystr) : Prop :=
  match r with
  | Eps => w = []
  | Chr k => exists c, w = [c] /\ in_cls k c = true
  | Rep k lo => Forall (fun c => in_cls k c = true) w /\ (lo <= length w)%nat
  | Bol => w = [] /\ (p = None \/ p = Some LF)
  | Cat a b =>
      exists w1 w2, w = w1 ++ w2 /\ Matches a p w1 /\ Matches b (last_of p w1) w2
  | Alt a b => Matches a p w \/ Matches b p w
  | Grp _ a => Matches a p w
  end.

(** [tok] occurs in [t]. *)
Definition occurs (tok t : pystr) : Prop :=
  exists pre post, t = pre ++ tok ++ post.

(** The markers of an enumerated-choice question: the word for "choose"
    or an option label. *)
Definition has_choice_marker (t : pystr) : Prop :=
  exists tok, tok ∈ choice_tokens /\ occurs tok t.

(** The markers of a fill-in-the-blank question: two consecutive blank
    characters, or one of the two words. *)
Definition has_blank_marker (t : pystr) : Prop :=
  (exists a b, a ∈ blank_chars /\ b ∈ blank_chars /\ occurs [a; b] t)
  \/ occurs tok_fill t \/ occurs tok_space t.

(** The Unicode table counts none of the non-ASCII characters the
    classifier looks for as whitespace. *)
Definition tokens_not_space : Prop :=
  Forall (fun c => uni_space c = false)
    [0x9009; 0x62E9; 0x586B; 0x7A7A; 0x683C; 0xFF3F].

(** A list marker: optional whitespace, then digits followed by [.] or
    [、], or CJK numerals followed by [、] or [．]. *)
Definition is_marker (w : pystr) : Prop :=
  exists ws ds d, w = ws ++ ds ++ [d]
    /\ Forall (fun c => isspace c = true) ws
    /\ ds <> []
    /\ ((Forall (fun c => isdecimal c = true) ds /\ d ∈ [0x2E; 0x3001])
        \/ (Forall (fun c => c ∈ cjk_numerals) ds /\ d ∈ [0x3001; 0xFF0E])).

(** The cursor is at the start of a line. *)
Definition line_start (p : option N) : Prop := p = None \/ p = Some LF.

(** A marker occurs at the start of some line of [t], a text that follows
    the character [p]. *)
Definition has_marker_from (p : option N) (t : pystr) : Prop :=
  exists pre w post, t = pre ++ w ++ post
    /\ line_start (last_of p pre) /\ is_marker w.

Definition has_marker (t : pystr) : Prop := has_marker_from None t.

(** A text cut at markers: each chunk but the last is followed by a marker
    at the start of a line, and no marker is left in the last chunk. *)
Inductive SplitAt : option N -> pystr -> list pystr -> Prop :=
| SplitAt_last p t :
    ~ has_marker_from p t -> SplitAt p t [t]
| SplitAt_cons p pre w post chunks :
    line_start (last_of p pre) -> is_marker w ->
    SplitAt (last_of (last_of p pre) w) post chunks ->
    SplitAt p (pre ++ w ++ post) (pre :: chunks).

(** The [raw_text] of the rows a page text gives. *)
Definition page_segments (src : pystr) (pno1 : Z) (images : pystr)
    (combined_text : pystr) : list pystr :=
  map raw_text
    (chunk_rows src pno1 images (re_split marker_re combined_text) []).




(** ** What a run of [process_task] writes *)

(** A log entry of [update_progress]: the time stamp, a space, the
    message. *)
Definition stamp (tick : nat) (m : pystr) : pystr :=
  isoformat (utcnow tick) ++ u " " ++ m.

Definition page_message (total : Z) (pno : nat) : pystr :=
  u "processed page " ++ str_of_int (Z.of_nat (S pno)) ++ u "/"
    ++ str_of_int total.

(** The two writes of the progress report after page [pno]. *)
Definition page_write (total : Z) (tick pno : nat) : list Write :=
  [WPercent (pct (Z.of_nat (S pno)) total);
   WLog (stamp tick (page_message total pno))].

(** The writes of [k] consecutive pages from page [pno] on. *)
Fixpoint page_writes (total : Z) (tick pno k : nat) : list Write :=
  match k with
  | O => []
  | S k' => page_write total tick pno ++ page_writes total (S tick) (S pno) k'
  end.

(** The page loop without its progress reports: the number of pages
    completed and the rows, or the exception that ended the loop. *)
Fixpoint extract_rows (pdf_path : pystr) (pno : nat) (pgs : list Page)
    (rows : list Row) : nat * result (list Row) :=
  match pgs with
  | [] => (O, Ok rows)
  | pg :: more =>
      match page_rows pdf_path pno pg rows with
      | Raise e => (O, Raise e)
      | Ok rows' =>
          let '(k, r) := extract_rows pdf_path (S pno) more rows' in (S k, r)
      end
  end.

Definition out_path (task_id : pystr) : pystr :=
  os_path_join OUTPUT_DIR (u "result_" ++ task_id ++ u ".xlsx").

(** The outcome of a run: the number of pages of the document, the number
    of pages completed, and the table written or the exception caught. *)
Definition task_result (task_id saved_path : pystr) (w : World)
    : nat * nat * result DataFrame :=
  match fitz_open (uploads w !! saved_path) with
  | Raise e => (O, O, Raise e)
  | Ok doc =>
      let '(k, r) := extract_rows saved_path 0 doc [] in
      (length doc, k,
       match r with
       | Raise e => Raise e
       | Ok rows =>
           match excel_error (out_path task_id) with
           | Some e => Raise e
           | None => Ok (mkDataFrame rows)
           end
       end)
  end.

Definition ending_writes (task_id : pystr) (tick : nat) (r : result DataFrame)
    : list Write :=
  match r with
  | Ok _ =>
      [WStatus done; WFile (out_path task_id); WPercent 100;
       WLog (stamp tick (u "finished processing"))]
  | Raise e => [WStatus error; WLog e]
  end.

(** The writes before the first page. *)
Definition start_writes (w : World) : list Write :=
  [WStatus processing; WPercent 1;
   WLog (stamp (ticks w) (u "start processing"))].

Definition task_writes (task_id saved_path : pystr) (w : World) : list Write :=
  let '(n, k, r) := task_result task_id saved_path w in
  start_writes w
  ++ page_writes (Z.of_nat n) (S (ticks w)) 0 k
  ++ ending_writes task_id (S (ticks w) + k) r.

Definition apply_all (j : Job) (ws : list Write) : Job :=
  foldl (fun j wr => apply_write wr j) j ws.

(** The world after a run of writes to one job and [dt] clock readings. *)
Definition commit (task_id : pystr) (ws : list Write) (dt : nat) (w : World)
    : World :=
  {| tasks :=
       match tasks w !! task_id with
       | Some j => <[task_id := apply_all j ws]> (tasks w)
       | None => tasks w
       end;
     uploads := uploads w; outputs := outputs w;
     ticks := ticks w + dt;
     writes := writes w ++ map (pair task_id) ws |}.

Definition set_outputs (o : gmap pystr Sheet) (w : World) : World :=
  {| tasks := tasks w; uploads := uploads w; outputs := o;
     ticks := ticks w; writes := writes w |}.

(** The states a polling client can see of a job during its run. *)
Definition job_history (task_id saved_path : pystr) (w : World) (j : Job)
    : list Job :=
  replay j (task_writes task_id saved_path w).

(** The clock readings of a run. *)
Definition task_ticks (task_id saved_path : pystr) (w : World) : nat :=
  let '(_, k, r) := task_result task_id saved_path w in
  match r with Ok _ => S (S k) | Raise _ => S k end.

(** The result sheets on disk after a run. *)
Definition task_outputs (task_id saved_path : pystr) (w : World)
    : gmap pystr Sheet :=
  match snd (task_result task_id saved_path w) with
  | Ok df => <[out_path task_id := to_excel df]> (outputs w)
  | Raise _ => outputs w
  end.

(** ** Properties of the history of a job *)

(** [R] holds between each state and the next. *)
Fixpoint adjacent {A} (R : A -> A -> Prop) (l : list A) : Prop :=
  match l with
  | a :: (b :: _) as t => R a b /\ adjacent R t
  | _ => True
  end.

Definition terminal (s : Status) : Prop := s = done \/ s = error.

(** The moves of the state machine: queued → processing → done, and
    processing → error; a status may also stay as it is. *)
Definition allowed (a b : Status) : Prop :=
  a = b \/ (a = queued /\ b = processing)
  \/ (a = processing /\ b = done) \/ (a = processing /\ b = error).

Definition status_moves (h : list Job) : Prop :=
  adjacent (fun a b => allowed (status a) (status b)) h.

(** Once terminal, nothing but the log changes. *)
Definition frozen_when_terminal (h : list Job) : Prop :=
  adjacent (fun a b => terminal (status a) ->
              status b = status a /\ percent b = percent a /\ file b = file a) h.

(** The result path is set exactly when the status is [done]. *)
Definition path_iff_done (h : list Job) : Prop :=
  Forall (fun s => file s <> None <-> status s = done) h.

(** The values of [percent] while the status is [processing]. *)
Definition processing_percents (h : list Job) : list Z :=
  map percent (filter (fun s => status s = processing) h).

Definition nondecreasing (l : list Z) : Prop := adjacent Z.le l.

(** A log entry made of a time stamp, a space and a message. *)
Definition timestamped (e : pystr) : Prop :=
  exists d m, e = isoformat d ++ u " " ++ m.

Definition append_only (h : list Job) : Prop :=
  adjacent (fun a b => log a `prefix_of` log b) h.

(** The values written to [percent], in order. *)
Definition percent_writes (ws : list Write) : list Z :=
  omap (fun wr => match wr with WPercent v => Some v | _ => None end) ws.

(** The entries appended to the log, in order. *)
Definition log_writes (ws : list Write) : list pystr :=
  omap (fun wr => match wr with WLog m => Some m | _ => None end) ws.

(** The percent values of the pages of an [n]-page document are at least
    1 and do not decrease from one page to the next. *)
Definition pct_row_ok (n : nat) : bool :=
  forallb (fun i =>
             (1 <=? pct (Z.of_nat i) (Z.of_nat n))%Z
             && implb (Nat.ltb i n)
                  (pct (Z.of_nat i) (Z.of_nat n)
                     <=? pct (Z.of_nat (S i)) (Z.of_nat n))%Z)
    (seq 1 n).

(** The percent value of a page is the exact quotient [100 * i / n]
    rounded down, or one less. *)
Definition pct_near_floor (i n : nat) : bool :=
  let q := (100 * Z.of_nat i / Z.of_nat n)%Z in
  let p := pct (Z.of_nat i) (Z.of_nat n) in
  (p =? q)%Z || (p =? q - 1)%Z.

(** An embedded image that is extracted and written without exception. *)
Definition image_ok (im : EmbeddedImage) : Prop :=
  (exists x, extract_image im = Ok x) /\ write_image im = None.

(** A page that is processed without exception and whose fused text is
    empty once trimmed. *)
Definition blank_page (pg : Page) : Prop :=
  get_pixmap pg = None /\ img_save pg = None
  /\ Forall image_ok (get_images pg)
  /\ exists o, ocr pg = Ok o
       /\ strip (str_or (get_text pg) [] ++ [LF] ++ o) = [].

(** A file name that ends in [.pdf], in any mix of upper and lower case. *)
Definition pdf_name (name : pystr) : Prop :=
  exists stem a b c, name = stem ++ [DOT; a; b; c]
    /\ a ∈ [0x70; 0x50] /\ b ∈ [0x64; 0x44] /\ c ∈ [0x66; 0x46].

(** The same upload with other bytes. *)
Definition with_content (c : list N) (up : Upload) : Upload :=
  {| filename := filename up; content := c; uuid_file := uuid_file up;
     uuid_task := uuid_task up; store_error := store_error up |}.

Definition save_path_of (up : Upload) : pystr :=
  os_path_join UPLOAD_DIR (uuid_file up ++ u "_" ++ filename up).

(** An upload with a [.pdf] name creates a job, queued with percent 0, and
    returns its handle. *)
Definition name_creates_job (up : Upload) (w : World) : Prop :=
  pdf_name (filename up) ->
  exists call w' j,
    upload_pdf up w = (Ok (TaskId (uuid_task up), call), w')
    /\ tasks w' !! uuid_task up = Some j
    /\ status j = queued /\ percent j = 0%Z.

(** Both recognition calls raising leaves the page with an empty
    recognised text. *)
Definition ocr_failure_absorbed (pg : Page) : Prop :=
  forall e1 e2, ocr_chi_sim_eng pg = Raise e1 -> ocr_eng pg = Raise e2 ->
    ocr pg = Ok [].

(** ** Further descriptions of the code *)

(** The entries a run appends to the log of its job, from its outcome. *)
Definition run_log (task_id saved_path : pystr) (w : World) : list pystr :=
  let '(n, k, r) := task_result task_id saved_path w in
  [stamp (ticks w) (u "start processing")]
  ++ map (fun i => stamp (S (ticks w) + i) (page_message (Z.of_nat n) i))
       (seq 0 k)
  ++ match r with
     | Ok _ => [stamp (S (ticks w) + k) (u "finished processing")]
     | Raise e => [e]
     end.

(** Writes to the fields of an entry, none of which replaces the entry. *)
Definition field_writes (ws : list Write) : Prop :=
  Forall (fun wr => match wr with WNew _ => False | _ => True end) ws.

(** The job after [update_progress]: percent replaced when one is given,
    the stamped message appended when one is given and not empty. *)
Definition progressed (j : Job) (p : option Z) (m : option pystr)
    (tick : nat) : Job :=
  {| status := status j;
     percent := match p with Some v => v | None => percent j end;
     log := log j ++ match m with
                     | Some t => if truthy t then [stamp tick t] else []
                     | None => []
                     end;
     file := file j |}.

(** The path of the raster of a page. *)
Definition page_image (pdf_path : pystr) (pno1 : Z) : pystr :=
  os_path_join IMG_DIR
    (basename pdf_path ++ u "_p" ++ str_of_int pno1 ++ u ".png").

(** A row made from a chunk of page [pno] (counted from 0). *)
Definition row_of_page (pdf_path : pystr) (pno : nat) (r : Row) : Prop :=
  page r = Z.of_nat (S pno)
  /\ source_file r = basename pdf_path
  /\ raw_text r <> [] /\ strip (raw_text r) = raw_text r
  /\ question_type r = classify_question (Some (raw_text r))
  /\ inline_equations r = join (u ";") (eqs_of_chunk (raw_text r))
  /\ exists saved,
       local_images r
       = join (u ";") (saved ++ [page_image pdf_path (Z.of_nat (S pno))]).

(** The table [extract_single_pdf_to_df] returns, without the progress
    reports. *)
Definition extract_df (pdf_path : pystr) (w : World) : result DataFrame :=
  match fitz_open (uploads w !! pdf_path) with
  | Raise e => Raise e
  | Ok doc =>
      match snd (extract_rows pdf_path 0 doc []) with
      | Ok rows => Ok (mkDataFrame rows)
      | Raise e => Raise e
      end
  end.

(** Two writes that are the same, or two log entries. *)
Definition same_but_log (a b : Write) : Prop :=
  match a, b with
  | WLog _, WLog _ => True
  | _, _ => a = b
  end.

(** Two jobs that differ at most in the text of their log entries. *)
Definition same_but_log_text (s s' : Job) : Prop :=
  status s = status s' /\ percent s = percent s' /\ file s = file s'
  /\ length (log s) = length (log s').

(** The number a string of decimal digits denotes. *)
Definition value_of (ds : pystr) : N :=
  fold_left (fun acc c => 10 * acc + (c - 48)) ds 0.

(** A decimal digit of ASCII. *)
Definition decimal_digit (c : N) : bool := (48 <=? c) && (c <=? 57).

(** The extension an embedded image is saved with: the one the library
    reports, [png] when it reports none. *)
Definition image_ext (im : EmbeddedImage) : pystr :=
  match extract_image im with Ok (Some x) => x | _ => u "png" end.

(** The exception raised while an embedded image is extracted or written
    out, if any. *)
Definition image_error (im : EmbeddedImage) : option pystr :=
  match extract_image im with Raise e => Some e | Ok _ => write_image im end.

(** The file the [ii]-th embedded image of a page is written to. *)
Definition image_path (pdf_path : pystr) (pno1 : Z) (ii : nat) (ext : pystr)
    : pystr :=
  os_path_join IMG_DIR
    (splitext_root (basename pdf_path) ++ u "_p" ++ str_of_int pno1 ++ u "_"
       ++ str_of_int (Z.of_nat ii) ++ u "." ++ ext).

(** The image files of page [pno] (counted from 0): one per embedded
    image, in the order of the page, then the raster of the page. *)
Definition page_files (pdf_path : pystr) (pno : nat) (pg : Page)
    : list pystr :=
  imap (fun ii im => image_path pdf_path (Z.of_nat (S pno)) ii (image_ext im))
    (get_images pg)
  ++ [page_image pdf_path (Z.of_nat (S pno))].

(** ** Facts about strings *)

Lemma dropwhile_app_stop (f : N -> bool) (a b : pystr) :
  Forall (fun c => f c = true) a ->
  dropwhile f (a ++ b) = dropwhile f b.
Proof.
  induction 1 as [|c a Hc _ IH]; simpl; [done|]. by rewrite Hc.
Qed.

Lemma dropwhile_split (f : N -> bool) (s : pystr) :
  exists a, s = a ++ dropwhile f s /\ Forall (fun c => f c = true) a.
Proof.
  induction s as [|c s [a [E Ha]]]; simpl.
  - by exists [].
  - destruct (f c) eqn:Hc.
    + exists (c :: a). split; [simpl; by f_equal | by constructor].
    + by exists [].
Qed.

Lemma dropwhile_head (f : N -> bool) (s : pystr) c t :
  dropwhile f s = c :: t -> f c = false.
Proof.
  induction s as [|x s IH]; simpl; [done|].
  destruct (f x) eqn:Hx; [done|]. by intros [= -> _].
Qed.

Lemma dropwhile_fix (f : N -> bool) (s : pystr) :
  dropwhile f (dropwhile f s) = dropwhile f s.
Proof.
  destruct (dropwhile f s) as [|c t] eqn:E; [done|].
  simpl. by rewrite (dropwhile_head _ _ _ _ E).
Qed.

Lemma dropwhile_all (f : N -> bool) (s : pystr) :
  Forall (fun c => f c = true) s -> dropwhile f s = [].
Proof.
  intros H. rewrite <- (app_nil_r s). by rewrite dropwhile_app_stop.
Qed.

(** [strip] splits a text into leading whitespace, the stripped text and
    trailing whitespace. *)
Lemma strip_split (s : pystr) :
  exists a b, s = a ++ strip s ++ b
    /\ Forall (fun c => isspace c = true) a
    /\ Forall (fun c => isspace c = true) b.
Proof.
  unfold strip, rstrip, lstrip.
  destruct (dropwhile_split isspace s) as [a [Ea Ha]].
  destruct (dropwhile_split isspace (rev (dropwhile isspace s))) as [b [Eb Hb]].
  exists a, (rev b). split_and!; [|done|by apply Forall_rev].
  rewrite Ea at 1. f_equal.
  rewrite <- (rev_involutive (dropwhile isspace s)) at 1.
  rewrite Eb at 1. by rewrite rev_app_distr.
Qed.

Lemma strip_first (s : pystr) c t : strip s = c :: t -> isspace c = false.
Proof.
  unfold strip, rstrip, lstrip. intros E.
  destruct (dropwhile_split isspace (rev (dropwhile isspace s))) as [b [Eb Hb]].
  apply (f_equal (@rev N)) in Eb. rewrite rev_involutive, rev_app_distr, E in Eb.
  eapply dropwhile_head. exact Eb.
Qed.

Lemma strip_last (s : pystr) c t : strip s = t ++ [c] -> isspace c = false.
Proof.
  unfold strip, rstrip. intros E.
  apply (f_equal (@rev N)) in E. rewrite rev_involutive, rev_app_distr in E.
  simpl in E. eapply dropwhile_head. exact E.
Qed.

(** Stripping a stripped text changes nothing. *)
Lemma strip_idem (s : pystr) : strip (strip s) = strip s.
Proof.
  destruct (strip s) as [|c t] eqn:E; [done|].
  assert (Hc := strip_first _ _ _ E).
  unfold strip at 1, lstrip. simpl. rewrite Hc.
  destruct (exists_last (l := c :: t) ltac:(done)) as [t' [d Ed]].
  rewrite Ed in *. assert (Hd := strip_last _ _ _ E).
  unfold rstrip. rewrite rev_app_distr. simpl. rewrite Hd.
  simpl. by rewrite rev_involutive.
Qed.

(** ** The matcher agrees with the meaning of patterns *)

Lemma last_of_nil (p : option N) : last_of p [] = p.
Proof. done. Qed.

Lemma last_of_cons (p : option N) c w : last_of p (c :: w) = last_of (Some c) w.
Proof. unfold last_of. rewrite last_cons. by destruct (last w). Qed.

Lemma last_of_app (p : option N) w1 w2 :
  last_of p (w1 ++ w2) = last_of (last_of p w1) w2.
Proof.
  revert p. induction w1 as [|c w1 IH]; intros p; [done|].
  simpl. by rewrite !last_of_cons, IH.
Qed.

Lemma rep_sound k : forall l lo p cs cont (r : mstate),
  rep k lo p l cs cont = Some r ->
  exists w l', l = w ++ l'
    /\ Forall (fun c => in_cls k c = true) w
    /\ (lo <= length w)%nat
    /\ cont (MState (last_of p w) l' cs) = Some r.
Proof.
  assert (Hstop : forall l lo p cs (cont : mstate -> option mstate) (r : mstate),
    (if Nat.eqb lo 0 then cont (MState p l cs) else None) = Some r ->
    exists w l', l = w ++ l'
      /\ Forall (fun c => in_cls k c = true) w
      /\ (lo <= length w)%nat
      /\ cont (MState (last_of p w) l' cs) = Some r).
  { intros l lo p cs cont r H. destruct (Nat.eqb_spec lo 0); [|done].
    exists [], l. subst. split_and!; auto. }
  induction l as [|c t IH]; intros lo p cs cont r H; simpl in H.
  - by apply Hstop.
  - destruct (in_cls k c) eqn:Hc; [|by apply Hstop].
    destruct (rep k (Nat.pred lo) (Some c) t cs cont) as [r'|] eqn:E;
      [|by apply Hstop].
    injection H as ->.
    destruct (IH _ _ _ _ _ E) as (w & l' & -> & Hw & Hlo & Hk).
    exists (c :: w), l'. rewrite last_of_cons. split_and!; auto.
    simpl. lia.
Qed.

Lemma rep_complete k : forall w l' lo p cs cont,
  Forall (fun c => in_cls k c = true) w ->
  (lo <= length w)%nat ->
  is_Some (cont (MState (last_of p w) l' cs)) ->
  is_Some (rep k lo p (w ++ l') cs cont).
Proof.
  induction w as [|c w IH]; intros l' lo p cs cont Hw Hlo Hk.
  - simpl in Hlo. assert (lo = 0)%nat as -> by lia. rewrite last_of_nil in Hk.
    destruct l' as [|c t]; simpl; [done|].
    destruct (in_cls k c); [|done].
    by destruct (rep k 0 (Some c) t cs cont).
  - inversion Hw as [|? ? Hc Hw']; subst. simpl. rewrite Hc.
    rewrite last_of_cons in Hk.
    assert (H : is_Some (rep k (Nat.pred lo) (Some c) (w ++ l') cs cont)).
    { apply IH; auto. simpl in Hlo. lia. }
    destruct H as [r ->]. by eexists.
Qed.

Lemma mstate_eta (s : mstate) : MState (prev s) (rest s) (caps s) = s.
Proof. by destruct s. Qed.

(** Soundness: whatever the matcher accepts is a word of the pattern,
    and the continuation ran on what follows it. *)
Lemma rmatch_sound : forall r s cont (s' : mstate),
  rmatch r s cont = Some s' ->
  exists w l' cs', rest s = w ++ l'
    /\ Matches r (prev s) w
    /\ cont (MState (last_of (prev s) w) l' cs') = Some s'.
Proof.
  induction r as [|k|k lo| |a IHa b IHb|a IHa b IHb|i a IHa];
    intros s cont s' H; simpl in H.
  - exists [], (rest s), (caps s). rewrite last_of_nil, mstate_eta. by simpl.
  - destruct (rest s) as [|c t] eqn:E; [done|].
    destruct (in_cls k c) eqn:Hc; [|done].
    exists [c], t, (caps s). simpl. split_and!; eauto.
  - destruct (rep_sound _ _ _ _ _ _ _ H) as (w & l' & E & Hw & Hlo & Hk).
    exists w, l', (caps s). simpl. auto.
  - exists [], (rest s), (caps s). rewrite last_of_nil, mstate_eta. simpl.
    destruct (prev s) as [c|]; [|auto].
    destruct (N.eqb_spec c LF); [|done]. subst. auto.
  - destruct (IHa _ _ _ H) as (w1 & l1 & cs1 & E1 & M1 & H1).
    destruct (IHb _ _ _ H1) as (w2 & l2 & cs2 & E2 & M2 & H2).
    simpl in *. exists (w1 ++ w2), l2, cs2. subst l1.
    rewrite E1, last_of_app, <- app_assoc. split_and!; eauto.
  - destruct (rmatch a s cont) as [r|] eqn:E.
    + injection H as ->. destruct (IHa _ _ _ E) as (w & l' & cs' & ? & ? & ?).
      exists w, l', cs'. simpl. auto.
    + destruct (IHb _ _ _ H) as (w & l' & cs' & ? & ? & ?).
      exists w, l', cs'. simpl. auto.
  - destruct (IHa _ _ _ H) as (w & l' & cs' & E & M & Hk). simpl in Hk.
    eexists w, l', _. simpl. eauto.
Qed.

(** Completeness: when some word of the pattern is followed by a text the
    continuation accepts, the matcher succeeds. *)
Lemma rmatch_complete : forall r s cont w l',
  rest s = w ++ l' ->
  Matches r (prev s) w ->
  (forall cs', is_Some (cont (MState (last_of (prev s) w) l' cs'))) ->
  is_Some (rmatch r s cont).
Proof.
  induction r as [|k|k lo| |a IHa b IHb|a IHa b IHb|i a IHa];
    intros s cont w l' E M Hk; simpl in M |- *.
  - subst w. simpl in E. specialize (Hk (caps s)).
    rewrite last_of_nil, <- E, mstate_eta in Hk. done.
  - destruct M as (c & -> & Hc). simpl in E. rewrite E, Hc. apply Hk.
  - destruct M as [Hw Hlo]. rewrite E. by apply rep_complete.
  - destruct M as [-> Hp]. simpl in E. specialize (Hk (caps s)).
    rewrite last_of_nil, <- E, mstate_eta in Hk.
    destruct Hp as [-> | ->]; [done|]. by simpl.
  - destruct M as (w1 & w2 & -> & M1 & M2).
    rewrite <- app_assoc in E.
    apply (IHa s _ w1 (w2 ++ l') E M1). intros cs'.
    apply (IHb _ cont w2 l'); simpl; auto.
    intros cs''. rewrite <- last_of_app. apply Hk.
  - destruct M as [M|M].
    + destruct (IHa s cont w l' E M Hk) as [r ->]. by eexists.
    + destruct (rmatch a s cont); [by eexists|]. by apply (IHb s cont w l').
  - apply (IHa s _ w l' E M). intros cs'. simpl. apply Hk.
Qed.

(** A found match: the text splits into what was skipped, the matched word
    and the rest. *)
Lemma search_from_sound r : forall l p pre s',
  search_from r p l = Some (pre, s') ->
  exists w, l = pre ++ w ++ rest s'
    /\ Matches r (last_of p pre) w
    /\ prev s' = last_of (last_of p pre) w.
Proof.
  induction l as [|c t IH]; intros p pre s' H; simpl in H.
  - destruct (rmatch r (MState p [] []) Some) as [s1|] eqn:E; [|done].
    injection H as <- ->.
    destruct (rmatch_sound _ _ _ _ E) as (w & l' & cs' & E1 & M & [= <-]).
    exists w. simpl in *. auto.
  - destruct (rmatch r (MState p (c :: t) []) Some) as [s1|] eqn:E.
    + injection H as <- ->.
      destruct (rmatch_sound _ _ _ _ E) as (w & l' & cs' & E1 & M & [= <-]).
      exists w. simpl in *. auto.
    + destruct (search_from r (Some c) t) as [[pre1 s1]|] eqn:E1; [|done].
      injection H as <- ->.
      destruct (IH _ _ _ E1) as (w & -> & M & Hp).
      exists w. rewrite last_of_cons. auto.
Qed.

(** No match is missed. *)
Lemma search_from_complete r : forall pre p w post,
  Matches r (last_of p pre) w ->
  is_Some (search_from r p (pre ++ w ++ post)).
Proof.
  induction pre as [|c pre IH]; intros p w post M.
  - assert (H : is_Some (rmatch r (MState p (w ++ post) []) Some)).
    { apply (rmatch_complete r _ Some w post); simpl; auto. }
    destruct H as [s1 H]. simpl app.
    destruct (w ++ post); simpl; rewrite H; by eexists.
  - simpl. destruct (rmatch r _ Some); [by eexists|].
    rewrite last_of_cons in M.
    destruct (IH (Some c) w post M) as [[pre1 s1] ->]. by eexists.
Qed.

Lemma re_search_spec r t :
  re_search r t = true <->
  exists pre w post, t = pre ++ w ++ post /\ Matches r (last_of None pre) w.
Proof.
  unfold re_search. split.
  - destruct (search_from r None t) as [[pre s']|] eqn:E; [|done]. intros _.
    destruct (search_from_sound _ _ _ _ _ E) as (w & -> & M & _). eauto.
  - intros (pre & w & post & -> & M).
    by destruct (search_from_complete r pre None w post M) as [? ->].
Qed.

(** ** classify_question *)

Lemma Matches_lit (l : pystr) p w : Matches (lit l) p w <-> w = l.
Proof.
  revert p w. induction l as [|c l IH]; intros p w; simpl; [done|].
  split.
  - intros (w1 & w2 & -> & (c' & -> & Hc) & M). apply IH in M. subst.
    unfold mem in Hc. simpl in Hc. rewrite orb_false_r in Hc.
    apply N.eqb_eq in Hc. by subst.
  - intros ->. exists [c], l. split_and!; [done| |by apply IH].
    exists c. split; [done|]. unfold mem. simpl. by rewrite N.eqb_refl.
Qed.

Lemma Matches_alts (rs : list regex) p w :
  rs <> [] ->
  Matches (alts rs) p w <-> exists r, r ∈ rs /\ Matches r p w.
Proof.
  induction rs as [|r rs IH]; [done|]. intros _.
  destruct rs as [|r' rs].
  - simpl. split; [intros M; exists r; split; [by left|done]|].
    intros (r0 & Hr & M). by apply list_elem_of_singleton in Hr as ->.
  - change (alts (r :: r' :: rs)) with (Alt r (alts (r' :: rs))).
    simpl Matches. rewrite IH by done. split.
    + intros [M | (r0 & Hr & M)]; [exists r|exists r0]; split; auto.
      * by left.
      * by right.
    + intros (r0 & Hr & M). apply elem_of_cons in Hr as [-> | Hr]; eauto.
Qed.

Lemma mem_spec c l : mem c l = true <-> c ∈ l.
Proof.
  unfold mem. rewrite existsb_exists. split.
  - intros (x & Hx & E). apply N.eqb_eq in E. subst. by apply list_elem_of_In.
  - intros H. exists c. split; [by apply list_elem_of_In | apply N.eqb_refl].
Qed.

Lemma search_choice t : re_search choice_re t = true <-> has_choice_marker t.
Proof.
  rewrite re_search_spec. unfold has_choice_marker, occurs, choice_re. split.
  - intros (pre & w & post & -> & M).
    apply Matches_alts in M as (r & Hr & M); [|done].
    apply list_elem_of_fmap in Hr as (tok & -> & Htok).
    apply Matches_lit in M as ->. eauto.
  - intros (tok & Htok & pre & post & ->). exists pre, tok, post.
    split; [done|]. apply Matches_alts; [done|].
    exists (lit tok). split; [|by apply Matches_lit].
    apply list_elem_of_fmap. eauto.
Qed.

Lemma search_blank t : re_search blank_re t = true <-> has_blank_marker t.
Proof.
  rewrite re_search_spec. unfold has_blank_marker, occurs, blank_re. split.
  - intros (pre & w & post & -> & M).
    destruct M as [[Hw Hlen] | [M | M]].
    + left. destruct w as [|a [|b w]]; simpl in Hlen; [lia|lia|].
      inversion Hw as [|? ? Ha Hw']; subst.
      inversion Hw' as [|? ? Hb _]; subst.
      exists a, b. split_and!; [by apply mem_spec|by apply mem_spec|].
      by exists pre, (w ++ post).
    + right; left. apply Matches_lit in M as ->. eauto.
    + right; right. apply Matches_lit in M as ->. eauto.
  - intros [(a & b & Ha & Hb & pre & post & ->) | [(pre & post & ->) | (pre & post & ->)]].
    + exists pre, [a; b], post. split; [done|]. left. split; [|simpl; lia].
      repeat constructor; by apply mem_spec.
    + exists pre, tok_fill, post. split; [done|].
      right; left. by apply Matches_lit.
    + exists pre, tok_space, post. split; [done|].
      right; right. by apply Matches_lit.
Qed.

(** Whitespace around a text cannot hide or create an occurrence of a
    word that has no whitespace at its ends. *)
Lemma occurs_drop_left tok ws s c tok' :
  tok = c :: tok' -> isspace c = false ->
  Forall (fun c => isspace c = true) ws ->
  occurs tok (ws ++ s) -> occurs tok s.
Proof.
  intros -> Hc. induction 1 as [|x ws Hx _ IH]; [done|].
  intros (pre & post & E). destruct pre as [|y pre]; simpl in E.
  - injection E as -> _. congruence.
  - injection E as -> E. apply IH. by exists pre, post.
Qed.

Lemma occurs_drop_right tok ws s c tok' :
  tok = tok' ++ [c] -> isspace c = false ->
  Forall (fun c => isspace c = true) ws ->
  occurs tok (s ++ ws) -> occurs tok s.
Proof.
  intros -> Hc Hws. induction ws as [|x ws IH] using rev_ind.
  - by rewrite app_nil_r.
  - apply Forall_app in Hws as [Hws Hx]. inversion Hx as [|? ? Hx' _]; subst.
    intros (pre & post & E). apply IH; [done|].
    destruct post as [|y post _] using rev_ind.
    + rewrite app_nil_r, !app_assoc in E.
      apply app_inj_tail in E as [_ ->]. congruence.
    + rewrite !app_assoc in E. apply app_inj_tail in E as [E _].
      exists pre, post. by rewrite E, <- !app_assoc.
Qed.

Lemma occurs_strip tok t c tok' d tok'' :
  tok = c :: tok' -> tok = tok'' ++ [d] ->
  isspace c = false -> isspace d = false ->
  occurs tok (strip t) <-> occurs tok t.
Proof.
  intros E1 E2 Hc Hd.
  destruct (strip_split t) as (a & b & E & Ha & Hb). split.
  - intros (pre & post & E'). exists (a ++ pre), (post ++ b).
    rewrite E at 1. rewrite E'. by rewrite <- !app_assoc.
  - intros H. rewrite E in H.
    apply (occurs_drop_left tok a _ c tok') in H; auto.
    by apply (occurs_drop_right tok b _ d tok'') in H.
Qed.

Lemma choice_marker_strip t :
  tokens_not_space -> has_choice_marker (strip t) <-> has_choice_marker t.
Proof.
  intros H. unfold tokens_not_space in H. rewrite !Forall_cons in H.
  destruct H as (H1 & H2 & _).
  assert (Htok : forall tok, tok ∈ choice_tokens ->
            occurs tok (strip t) <-> occurs tok t).
  { intros tok Htok. unfold choice_tokens in Htok.
    repeat (apply elem_of_cons in Htok as [-> | Htok]);
      [ apply (occurs_strip _ t 0x9009 [0x62E9] 0x62E9 [0x9009])
      | apply (occurs_strip _ t 65 [46] 46 [65])
      | apply (occurs_strip _ t 66 [46] 46 [66])
      | apply (occurs_strip _ t 67 [46] 46 [67])
      | apply (occurs_strip _ t 68 [46] 46 [68])
      | by apply elem_of_nil in Htok ]; done. }
  unfold has_choice_marker. split; intros (tok & Htk & Ho); exists tok;
    (split; [done|]); by apply Htok.
Qed.

Lemma blank_marker_strip t :
  tokens_not_space -> has_blank_marker (strip t) <-> has_blank_marker t.
Proof.
  intros H. unfold tokens_not_space in H. rewrite !Forall_cons in H.
  destruct H as (_ & _ & H3 & H4 & H5 & H6 & _).
  assert (Hb : forall c, c ∈ blank_chars -> isspace c = false).
  { intros c Hc. unfold blank_chars in Hc.
    repeat (apply elem_of_cons in Hc as [-> | Hc]); try done.
    by apply elem_of_nil in Hc. }
  unfold has_blank_marker.
  rewrite (occurs_strip tok_fill t 0x586B [0x7A7A] 0x7A7A [0x586B]) by done.
  rewrite (occurs_strip tok_space t 0x7A7A [0x683C] 0x683C [0x7A7A]) by done.
  split; (intros [(a & b & Ha & Hb' & Ho) | Hr]; [left|by right]);
    exists a, b; (split_and!; [done|done|]);
    by apply (occurs_strip [a; b] t a [b] b [a]); auto.
Qed.

(** C7. The classifier is total and returns exactly one of three distinct
    labels, by priority: a text with a choice marker (the word for "choose",
    or [A.], [B.], [C.], [D.]) is multiple-choice; otherwise a text with two
    consecutive blank characters or one of the fill-in-the-blank words is
    fill-in-blank; otherwise it is free-response. *)
Theorem classify_question_priority (text : pystr) :
  tokens_not_space ->
  classify_question (Some text) ∈ [label_choice; label_blank; label_free]
  /\ label_choice <> label_blank /\ label_choice <> label_free
  /\ label_blank <> label_free
  /\ (has_choice_marker text -> classify_question (Some text) = label_choice)
  /\ (~ has_choice_marker text -> has_blank_marker text ->
      classify_question (Some text) = label_blank)
  /\ (~ has_choice_marker text -> ~ has_blank_marker text ->
      classify_question (Some text) = label_free).
Proof.
  intros H.
  assert (Hor : str_or text [] = text) by (by destruct text).
  unfold classify_question. rewrite Hor.
  pose proof (search_choice (strip text)) as Hc.
  pose proof (search_blank (strip text)) as Hb.
  rewrite (choice_marker_strip text H) in Hc.
  rewrite (blank_marker_strip text H) in Hb.
  destruct (re_search choice_re (strip text)) eqn:Ec;
    [|destruct (re_search blank_re (strip text)) eqn:Eb].
  - split_and!; try done.
    + by left.
    + intros Hn. exfalso. apply Hn. by apply Hc.
    + intros Hn. exfalso. apply Hn. by apply Hc.
  - split_and!; try done.
    + right. by left.
    + intros Hy. apply Hc in Hy. done.
    + intros _ Hn. exfalso. apply Hn. by apply Hb.
  - split_and!; try done.
    + right. right. by left.
    + intros Hy. apply Hc in Hy. done.
    + intros _ Hy. apply Hb in Hy. done.
Qed.

(** ** The segment splitter *)

Lemma Matches_marker p w :
  Matches marker_re p w <-> line_start p /\ is_marker w.
Proof.
  unfold marker_re, is_marker, line_start. split.
  - intros (w0 & w1 & -> & [-> Hp] & M). simpl. split; [done|].
    rewrite last_of_nil in M.
    destruct M as [M|M];
      destruct M as (ws & w2 & -> & [Hws _] & ds & w3 & -> & [Hds Hlen]
                     & d & -> & Hd);
      exists ws, ds, d;
      (split_and!; [done|done|destruct ds; [simpl in Hlen; lia|done]|]).
    + left. split; [done|]. by apply mem_spec.
    + right. split; [|by apply mem_spec].
      eapply Forall_impl; [exact Hds|]. intros c Hc. by apply mem_spec.
  - intros [Hp (ws & ds & d & -> & Hws & Hne & H)].
    exists [], (ws ++ ds ++ [d]). split_and!; [done|done|].
    rewrite last_of_nil.
    assert (Hlen : (1 <= length ds)%nat) by (destruct ds; [done|simpl; lia]).
    destruct H as [[Hds Hd]|[Hds Hd]]; [left|right];
      exists ws, (ds ++ [d]); (split_and!; [done|split; [done|lia]|]);
      exists ds, [d]; (split_and!; [done| |]).
    + done.
    + exists d. split; [done|]. by apply mem_spec.
    + split; [|done]. eapply Forall_impl; [exact Hds|].
      intros c Hc. by apply mem_spec.
    + exists d. split; [done|]. by apply mem_spec.
Qed.

Lemma is_marker_length w : is_marker w -> (2 <= length w)%nat.
Proof.
  intros (ws & ds & d & -> & _ & Hne & _).
  rewrite !length_app. destruct ds; [done|]. simpl. lia.
Qed.

Lemma search_marker_none p t :
  search_from marker_re p t = None <-> ~ has_marker_from p t.
Proof.
  split.
  - intros E (pre & w & post & -> & Hp & Hw).
    destruct (search_from_complete marker_re pre p w post) as [x Hx].
    + by apply Matches_marker.
    + congruence.
  - intros Hn. destruct (search_from marker_re p t) as [[pre s']|] eqn:E; [|done].
    destruct (search_from_sound _ _ _ _ _ E) as (w & -> & M & _).
    apply Matches_marker in M as [Hp Hw]. exfalso. apply Hn.
    by exists pre, w, (rest s').
Qed.

(** With fuel for every character the scan runs to its end: the chunks of
    [re.split] are the text cut at markers. *)
Lemma split_from_spec : forall fuel p l,
  (length l <= fuel)%nat -> SplitAt p l (split_from fuel marker_re p l).
Proof.
  induction fuel as [|f IH]; intros p l Hlen; simpl.
  - constructor. intros (pre & w & post & -> & _ & Hw).
    apply is_marker_length in Hw. rewrite !length_app in Hlen. lia.
  - destruct (search_from marker_re p l) as [[pre s']|] eqn:E.
    + destruct (search_from_sound _ _ _ _ _ E) as (w & -> & M & Hprev).
      apply Matches_marker in M as [Hp Hw]. rewrite Hprev.
      constructor; [done|done|]. apply IH.
      apply is_marker_length in Hw. rewrite !length_app in Hlen. lia.
    + constructor. by apply search_marker_none.
Qed.

Lemma re_split_no_marker t : ~ has_marker t -> re_split marker_re t = [t].
Proof.
  intros Hn. unfold re_split. destruct (length t); simpl; [done|].
  apply search_marker_none in Hn. by rewrite Hn.
Qed.

Lemma chunk_rows_raw src pno1 images : forall chunks rows,
  map raw_text (chunk_rows src pno1 images chunks rows) =
  map raw_text rows ++ filter (fun c => c <> []) (map strip chunks).
Proof.
  induction chunks as [|c chunks IH]; intros rows; simpl.
  - by rewrite app_nil_r.
  - destruct (strip c) as [|x s] eqn:E; simpl.
    + rewrite IH. by rewrite filter_cons_False by auto.
    + rewrite IH, map_app. simpl. rewrite <- app_assoc. simpl.
      by rewrite filter_cons_True by done.
Qed.

(** C6. The rows of a page are the chunks between line-start list markers
    (the text cut at them), each one trimmed, the empty ones dropped; a text
    without marker that is not blank gives exactly one segment, the whole
    trimmed text; and ["1. foo\n2. bar"] gives [foo] and [bar]. *)
Theorem page_segments_split src pno1 images (text : pystr) :
  SplitAt None text (re_split marker_re text)
  /\ page_segments src pno1 images text =
       filter (fun c => c <> []) (map strip (re_split marker_re text))
  /\ Forall (fun seg => seg <> [] /\ strip seg = seg)
       (page_segments src pno1 images text)
  /\ (~ has_marker text -> strip text <> [] ->
      page_segments src pno1 images text = [strip text])
  /\ page_segments src pno1 images (u "1. foo" ++ [LF] ++ u "2. bar")
       = [u "foo"; u "bar"].
Proof.
  assert (E : forall t, page_segments src pno1 images t =
            filter (fun c => c <> []) (map strip (re_split marker_re t))).
  { intros t. unfold page_segments. by rewrite chunk_rows_raw. }
  split_and!.
  - by apply split_from_spec.
  - apply E.
  - rewrite E. apply Forall_forall. intros seg Hseg.
    apply list_elem_of_filter in Hseg as [Hne Hin]. split; [done|].
    apply list_elem_of_fmap in Hin as (c & -> & _). apply strip_idem.
  - intros Hn Hne. rewrite E, re_split_no_marker by done. simpl.
    by rewrite filter_cons_True, filter_nil by done.
  - rewrite E. vm_compute. reflexivity.
Qed.

(** ** Inline equations *)

Local Arguments mem : simpl never.












(** ** Running the pipeline *)

Local Arguments u : simpl never.
Local Arguments isoformat : simpl never.
Local Arguments str_of_int : simpl never.
Local Arguments pct : simpl never.
Local Arguments os_path_join : simpl never.

Lemma commit_lookup tid ws dt w j :
  tasks w !! tid = Some j ->
  tasks (commit tid ws dt w) !! tid = Some (apply_all j ws).
Proof.
  intros H. unfold commit. simpl. rewrite H. by rewrite lookup_insert_eq.
Qed.

Lemma commit_tasks tid ws dt w j :
  tasks w !! tid = Some j ->
  tasks (commit tid ws dt w) = <[tid := apply_all j ws]> (tasks w).
Proof. intros H. unfold commit. simpl. by rewrite H. Qed.

Lemma commit_nil tid w j : tasks w !! tid = Some j -> commit tid [] 0 w = w.
Proof.
  intros H. unfold commit. rewrite H. simpl.
  rewrite insert_id by done. rewrite app_nil_r, Nat.add_0_r. by destruct w.
Qed.

Lemma commit_commit tid ws1 ws2 d1 d2 w j :
  tasks w !! tid = Some j ->
  commit tid ws2 d2 (commit tid ws1 d1 w) = commit tid (ws1 ++ ws2) (d1 + d2) w.
Proof.
  intros H. unfold commit at 1. rewrite (commit_lookup _ _ _ _ _ H).
  unfold commit. rewrite H. simpl.
  rewrite insert_insert_eq. unfold apply_all. rewrite foldl_app.
  rewrite map_app, <- app_assoc. f_equal. lia.
Qed.

Lemma commit_set_outputs tid ws dt o w :
  commit tid ws dt (set_outputs o w) = set_outputs o (commit tid ws dt w).
Proof. done. Qed.

Lemma write_job_run tid wr w j :
  tasks w !! tid = Some j ->
  write_job tid wr w = (Ok tt, commit tid [wr] 0 w).
Proof.
  intros H. unfold write_job, commit. rewrite H. simpl.
  by rewrite Nat.add_0_r.
Qed.

Lemma update_progress_run tid p m w j :
  tasks w !! tid = Some j -> truthy m = true ->
  update_progress tid (Some p) (Some m) w =
  (Ok tt, commit tid [WPercent p; WLog (stamp (ticks w) m)] 1 w).
Proof.
  intros H Hm. unfold update_progress, bind, has_task.
  rewrite bool_decide_eq_true_2 by (rewrite H; by eexists). simpl.
  rewrite (write_job_run _ _ _ _ H). rewrite Hm. unfold now. simpl.
  erewrite write_job_run.
  2:{ simpl. rewrite H. by rewrite lookup_insert_eq. }
  f_equal. unfold commit. simpl. rewrite H. simpl.
  rewrite lookup_insert_eq, insert_insert_eq, <- app_assoc. simpl.
  rewrite !Nat.add_0_r. f_equal. lia.
Qed.

Lemma update_progress_unknown tid p m w :
  tasks w !! tid = None -> update_progress tid p m w = (Ok tt, w).
Proof.
  intros H. unfold update_progress, bind, has_task.
  rewrite bool_decide_eq_false_2; [done|]. rewrite H. by intros [? ?].
Qed.

(** The page loop makes the progress writes of the pages it completes. *)
Lemma page_loop_run path tid total : forall pgs pno rows w j,
  tasks w !! tid = Some j -> truthy tid = true ->
  page_loop path (Some tid) total pno pgs rows w =
  (snd (extract_rows path pno pgs rows),
   commit tid (page_writes total (ticks w) pno
                 (fst (extract_rows path pno pgs rows)))
     (fst (extract_rows path pno pgs rows)) w).
Proof.
  induction pgs as [|pg pgs IH]; intros pno rows w j H Ht;
    cbn [page_loop extract_rows].
  - unfold ret. cbn [fst snd page_writes]. by rewrite (commit_nil _ _ _ H).
  - unfold bind, lift. destruct (page_rows path pno pg rows) as [rows'|e].
    + rewrite Ht.
      change (u "processed page " ++ str_of_int (Z.of_nat (S pno)) ++ u "/"
                ++ str_of_int total) with (page_message total pno).
      rewrite (update_progress_run _ _ _ _ _ H) by done.
      erewrite IH; [|by apply commit_lookup|done].
      destruct (extract_rows path (S pno) pgs rows') as [k r] eqn:E.
      cbn [fst snd page_writes].
      f_equal. rewrite (commit_commit _ _ _ _ _ _ _ H).
      unfold commit at 2. cbn [ticks]. by rewrite Nat.add_1_r.
    + cbn [fst snd page_writes]. by rewrite (commit_nil _ _ _ H).
Qed.

Lemma write_sheet_run path df w :
  write_sheet path df w =
  match excel_error path with
  | Some e => (Raise e, w)
  | None => (Ok tt, set_outputs (<[path := to_excel df]> (outputs w)) w)
  end.
Proof. unfold write_sheet. by destruct (excel_error path). Qed.

Lemma set_outputs_same w : set_outputs (outputs w) w = w.
Proof. by destruct w. Qed.

Lemma set_outputs_commit tid ws dt w :
  set_outputs (outputs w) (commit tid ws dt w) = commit tid ws dt w.
Proof. done. Qed.

(** Two runs of writes are the same when their lists and clock readings
    are, up to the grouping of the lists and sums. *)
Ltac same_commit :=
  rewrite <- ?app_assoc; cbn [app ending_writes];
  repeat first [ reflexivity | lia | progress f_equal ].

Lemma commit_ticks tid ws dt w : ticks (commit tid ws dt w) = (ticks w + dt)%nat.
Proof. done. Qed.

(** A run of [process_task] on a known job returns normally, having made
    exactly the writes of [task_writes] to that job. *)
Lemma process_task_run tid path w j :
  tasks w !! tid = Some j -> tid <> [] ->
  process_task tid path w =
  (Ok tt,
   set_outputs (task_outputs tid path w)
     (commit tid (task_writes tid path w) (task_ticks tid path w) w)).
Proof.
  intros H Hne.
  assert (Ht : truthy tid = true) by (by destruct tid).
  unfold process_task, try_except, bind.
  rewrite (write_job_run _ _ _ _ H).
  erewrite update_progress_run; [|by apply commit_lookup|done].
  rewrite (commit_commit _ _ _ _ _ _ _ H), commit_ticks.
  unfold extract_single_pdf_to_df, bind, read_upload, lift.
  cbn [uploads commit].
  unfold task_outputs, task_writes, task_ticks, task_result, start_writes.
  fold (out_path tid).
  destruct (fitz_open (uploads w !! path)) as [doc|e].
  - erewrite page_loop_run; [|by apply commit_lookup|done].
    rewrite (commit_commit _ _ _ _ _ _ _ H), commit_ticks.
    destruct (extract_rows path 0 doc []) as [k [rows|e]]; cbn [fst snd].
    + unfold ret. rewrite write_sheet_run.
      destruct (excel_error (out_path tid)) as [e|].
      * erewrite write_job_run; [|by apply commit_lookup].
        rewrite (commit_commit _ _ _ _ _ _ _ H).
        erewrite write_job_run; [|by apply commit_lookup].
        rewrite (commit_commit _ _ _ _ _ _ _ H).
        rewrite set_outputs_commit. same_commit.
      * cbn [outputs commit].
        erewrite write_job_run; [|by apply (commit_lookup _ _ _ _ _ H)].
        rewrite commit_set_outputs, (commit_commit _ _ _ _ _ _ _ H).
        erewrite write_job_run; [|by apply (commit_lookup _ _ _ _ _ H)].
        rewrite commit_set_outputs, (commit_commit _ _ _ _ _ _ _ H).
        erewrite update_progress_run;
          [|by apply (commit_lookup _ _ _ _ _ H)|done].
        rewrite commit_set_outputs, (commit_commit _ _ _ _ _ _ _ H).
        cbn [ticks set_outputs]. rewrite commit_ticks. same_commit.
    + erewrite write_job_run; [|by apply commit_lookup].
      rewrite (commit_commit _ _ _ _ _ _ _ H).
      erewrite write_job_run; [|by apply commit_lookup].
      rewrite (commit_commit _ _ _ _ _ _ _ H).
      rewrite set_outputs_commit. same_commit.
  - cbn [fst snd].
    erewrite write_job_run; [|by apply commit_lookup].
    rewrite (commit_commit _ _ _ _ _ _ _ H).
    erewrite write_job_run; [|by apply commit_lookup].
    rewrite (commit_commit _ _ _ _ _ _ _ H).
    rewrite set_outputs_commit. same_commit.
Qed.

(** ** Histories *)

Lemma apply_all_app j a b :
  apply_all j (a ++ b) = apply_all (apply_all j a) b.
Proof. unfold apply_all. by rewrite foldl_app. Qed.

Lemma replay_last j ws : last (replay j ws) = Some (apply_all j ws).
Proof.
  revert j. induction ws as [|wr ws IH]; intros j; [done|].
  cbn [replay]. rewrite last_cons, IH. done.
Qed.

Lemma replay_head j ws : exists t, replay j ws = j :: t.
Proof. destruct ws; by eexists. Qed.

Lemma adjacent_cons {A} (R : A -> A -> Prop) a l :
  adjacent R (a :: l) <->
  match l with [] => True | b :: _ => R a b end /\ adjacent R l.
Proof using.
  destruct l; simpl; [|reflexivity].
  split; [intros _; split; exact I|intros _; exact I].
Qed.

Lemma adjacent_replay_cons R j wr ws :
  adjacent R (replay j (wr :: ws)) <->
  R j (apply_write wr j) /\ adjacent R (replay (apply_write wr j) ws).
Proof.
  cbn [replay]. rewrite adjacent_cons.
  by destruct (replay_head (apply_write wr j) ws) as [t ->].
Qed.

Lemma adjacent_replay_app R : forall a b j,
  adjacent R (replay j (a ++ b)) <->
  adjacent R (replay j a) /\ adjacent R (replay (apply_all j a) b).
Proof.
  induction a as [|wr a IH]; intros b j.
  - simpl. tauto.
  - change ((wr :: a) ++ b) with (wr :: (a ++ b)).
    rewrite !adjacent_replay_cons, IH. cbn. tauto.
Qed.

Lemma Forall_replay_app P : forall a b j,
  Forall P (replay j (a ++ b)) <->
  Forall P (replay j a) /\ Forall P (replay (apply_all j a) b).
Proof.
  induction a as [|wr a IH]; intros b j.
  - simpl. split; [|tauto]. intros H. split; [|done].
    destruct (replay_head j b) as [t E]. rewrite E in H.
    constructor; [by inversion H|done].
  - change ((wr :: a) ++ b) with (wr :: (a ++ b)). cbn [replay].
    rewrite !Forall_cons, IH. cbn. tauto.
Qed.

(** A property kept by every write of a run holds along the run. *)
Lemma replay_invariant (I : Job -> Prop) (R : Job -> Job -> Prop) :
  forall ws j,
  I j ->
  (forall s wr, wr ∈ ws -> I s ->
     I (apply_write wr s) /\ R s (apply_write wr s)) ->
  Forall I (replay j ws) /\ adjacent R (replay j ws) /\ I (apply_all j ws).
Proof.
  induction ws as [|wr ws IH]; intros j Hj Hstep.
  - simpl. auto.
  - destruct (Hstep j wr) as [Hj' HR]; [by left|done|].
    destruct (IH (apply_write wr j) Hj') as (HF & HA & HL).
    { intros s wr' Hin. apply Hstep. by right. }
    rewrite adjacent_replay_cons. cbn [replay]. split_and!; auto.
Qed.

Lemma page_writes_elem total : forall k tick pno wr,
  wr ∈ page_writes total tick pno k ->
  (exists v, wr = WPercent v) \/ (exists t m, wr = WLog (stamp t m)).
Proof.
  induction k as [|k IH]; intros tick pno wr H; simpl in H.
  - by apply elem_of_nil in H.
  - apply elem_of_cons in H as [-> | H]; [eauto|].
    apply elem_of_cons in H as [-> | H]; eauto.
Qed.

Lemma task_writes_shape tid path w :
  exists n k r,
    task_result tid path w = (n, k, r)
    /\ task_writes tid path w =
       start_writes w ++ page_writes (Z.of_nat n) (S (ticks w)) 0 k
         ++ ending_writes tid (S (ticks w) + k) r.
Proof.
  unfold task_writes. destruct (task_result tid path w) as [[n k] r].
  by exists n, k, r.
Qed.

(** While the pages are processed the job is [processing], it has no
    result path, and only its percent and log change. *)
Lemma running_phase (R : Job -> Job -> Prop) w n k j :
  status j = queued -> file j = None ->
  R j (set_status processing j) ->
  (forall s v, status s = processing -> file s = None -> R s (set_percent v s)) ->
  (forall s m, status s = processing -> file s = None -> R s (log_append m s)) ->
  let ws := start_writes w ++ page_writes (Z.of_nat n) (S (ticks w)) 0 k in
  Forall (fun s => file s = None
                   /\ (status s = queued \/ status s = processing))
    (replay j ws)
  /\ adjacent R (replay j ws)
  /\ status (apply_all j ws) = processing /\ file (apply_all j ws) = None.
Proof.
  intros Hq Hf R0 Rp Rl ws.
  assert (H1 : adjacent R (replay j ws) /\
       Forall (fun s => file s = None /\ status s = processing)
              (replay (set_status processing j)
                 ([WPercent 1; WLog (stamp (ticks w) (u "start processing"))]
                  ++ page_writes (Z.of_nat n) (S (ticks w)) 0 k))
       /\ status (apply_all j ws) = processing /\ file (apply_all j ws) = None).
  { unfold ws, start_writes.
    change ([WStatus processing; ?a; ?b] ++ ?l)
      with (WStatus processing :: ([a; b] ++ l)).
    rewrite adjacent_replay_cons. cbn [apply_write].
    destruct (replay_invariant
                (fun s => file s = None /\ status s = processing) R
                ([WPercent 1; WLog (stamp (ticks w) (u "start processing"))]
                  ++ page_writes (Z.of_nat n) (S (ticks w)) 0 k)
                (set_status processing j)) as (HF & HA & HL1 & HL2).
    - done.
    - intros s wr Hin [Hs1 Hs2].
      apply elem_of_app in Hin as [Hin | Hin].
      + apply elem_of_cons in Hin as [-> | Hin]; [cbn; auto|].
        apply elem_of_cons in Hin as [-> | Hin]; [cbn; auto|].
        by apply elem_of_nil in Hin.
      + apply page_writes_elem in Hin as [[v ->] | (t & m & ->)]; cbn; auto.
    - split_and!; auto. }
  destruct H1 as (HA & HF & HL). split_and!; try tauto.
  unfold ws, start_writes.
  change ([WStatus processing; ?a; ?b] ++ ?l)
    with (WStatus processing :: ([a; b] ++ l)).
  cbn [replay]. constructor; [auto|].
  eapply Forall_impl; [exact HF|]. cbn. tauto.
Qed.

(** ** The state machine of a job *)

Lemma adjacent_impl {A} (R R' : A -> A -> Prop) (l : list A) :
  (forall a b, R a b -> R' a b) -> adjacent R l -> adjacent R' l.
Proof.
  intros H. induction l as [|a l IH]; [done|].
  rewrite !adjacent_cons. intros [H1 H2]. split; [|auto].
  destruct l; auto.
Qed.

Lemma job_history_split tid path w j :
  exists n k r,
    task_result tid path w = (n, k, r)
    /\ job_history tid path w j =
       replay j ((start_writes w ++ page_writes (Z.of_nat n) (S (ticks w)) 0 k)
                   ++ ending_writes tid (S (ticks w) + k) r).
Proof.
  destruct (task_writes_shape tid path w) as (n & k & r & E & Ew).
  exists n, k, r. split; [done|].
  unfold job_history. by rewrite Ew, app_assoc.
Qed.

(** What may happen between two consecutive states of a job. *)
Definition job_step (tid : pystr) (a b : Job) : Prop :=
  allowed (status a) (status b)
  /\ (terminal (status a) -> status b = status a)
  /\ (status a = error -> percent b = percent a /\ file b = file a)
  /\ (status a = done ->
      (percent b = percent a \/ percent b = 100%Z)
      /\ (file b = file a \/ file b = Some (out_path tid)))
  /\ log a `prefix_of` log b.

Ltac step_tac H :=
  unfold job_step, allowed, terminal; cbn; rewrite ?H;
  split_and!; try done; auto;
  try (intros [?|?]; done); try (by apply prefix_app_r).

Lemma job_steps tid path w j :
  status j = queued -> file j = None ->
  adjacent (job_step tid) (job_history tid path w j).
Proof.
  intros Hq Hf.
  destruct (job_history_split tid path w j) as (n & k & r & _ & ->).
  rewrite adjacent_replay_app.
  destruct (running_phase (job_step tid) w n k j Hq Hf) as (_ & HA & Hs & Hfile).
  - step_tac Hq.
  - intros s v Hs _. step_tac Hs.
  - intros s m Hs _. step_tac Hs.
  - split; [done|].
    set (s := apply_all j _) in *. clearbody s.
    destruct r as [df|e]; cbn [ending_writes];
      rewrite !adjacent_replay_cons; cbn [replay adjacent apply_write];
      split_and!; try done; step_tac Hs.
Qed.

(** C4. A job moves along queued → processing → done or processing →
    error, and no write changes the status of a job that is done or error:
    neither a write of its own run, nor a run for another handle, nor an
    upload with another handle. After [error] only the log changes. After
    [done] the same run still sets the result path and sets percent to 100,
    and appends to the log. *)
Theorem job_state_machine tid path w j :
  tasks w !! tid = Some j -> tid <> [] ->
  status j = queued -> file j = None ->
  status_moves (job_history tid path w j)
  /\ adjacent (fun a b => terminal (status a) -> status b = status a)
       (job_history tid path w j)
  /\ adjacent (fun a b => status a = error ->
                 percent b = percent a /\ file b = file a)
       (job_history tid path w j)
  /\ adjacent (fun a b => status a = done ->
                 (percent b = percent a \/ percent b = 100%Z)
                 /\ (file b = file a \/ file b = Some (out_path tid)))
       (job_history tid path w j)
  /\ (forall tid', tid' <> tid ->
      tasks (snd (process_task tid path w)) !! tid' = tasks w !! tid')
  /\ (forall up tid', tid' <> uuid_task up ->
      tasks (snd (upload_pdf up w)) !! tid' = tasks w !! tid').
Proof.
  intros H Hne Hq Hf.
  pose proof (job_steps tid path w j Hq Hf) as HA.
  split_and!.
  - eapply adjacent_impl; [|exact HA]. unfold job_step. tauto.
  - eapply adjacent_impl; [|exact HA]. unfold job_step. tauto.
  - eapply adjacent_impl; [|exact HA]. unfold job_step. tauto.
  - eapply adjacent_impl; [|exact HA]. unfold job_step. tauto.
  - intros tid' Hd. rewrite (process_task_run _ _ _ _ H Hne).
    cbn [snd]. unfold set_outputs. cbn [tasks].
    rewrite (commit_tasks _ _ _ _ _ H). by rewrite lookup_insert_ne.
  - intros up tid' Hd. unfold upload_pdf.
    destruct (negb _); [done|].
    unfold bind, store_upload. destruct (store_error up); [done|].
    cbn. by rewrite lookup_insert_ne.
Qed.

(** The last state of a run: the ending writes applied to a job that is
    [processing] and has no result path. *)
Lemma final_job tid path w j :
  status j = queued -> file j = None ->
  exists s n k r,
    task_result tid path w = (n, k, r)
    /\ status s = processing /\ file s = None
    /\ last (replay j (task_writes tid path w)) =
       Some (apply_all s (ending_writes tid (S (ticks w) + k) r)).
Proof.
  intros Hq Hf.
  destruct (task_writes_shape tid path w) as (n & k & r & E & ->).
  destruct (running_phase (fun _ _ => True) w n k j Hq Hf)
    as (_ & _ & Hs & Hfile); auto.
  eexists _, n, k, r. split_and!; [done|exact Hs|exact Hfile|].
  by rewrite replay_last, app_assoc, apply_all_app.
Qed.

(** C5. A job has a result path only if its status is [done]: a queued,
    processing or error job has none; and when the run is over the job has
    a result path if and only if its status is [done]. *)
Theorem result_path_only_when_done tid path w j :
  status j = queued -> file j = None ->
  Forall (fun s => file s <> None -> status s = done)
    (job_history tid path w j)
  /\ Forall (fun s => status s <> done -> file s = None)
       (job_history tid path w j)
  /\ (forall s, last (job_history tid path w j) = Some s ->
      (file s <> None <-> status s = done)).
Proof.
  intros Hq Hf.
  assert (HE : Forall (fun s => (file s <> None -> status s = done)
                             /\ (status s <> done -> file s = None))
            (job_history tid path w j)).
  { destruct (job_history_split tid path w j) as (n & k & r & _ & ->).
    destruct (running_phase (fun _ _ => True) w n k j Hq Hf)
      as (HF & _ & Hs & Hfile); auto.
    rewrite Forall_replay_app. split.
    - eapply Forall_impl; [exact HF|]. cbn.
      intros s [E [E'|E']]; rewrite E, E'; done.
    - destruct (apply_all j _) as [st pc lg fl]. cbn in Hs, Hfile. subst.
      destruct r as [df|e]; cbn [ending_writes replay apply_write];
        repeat constructor; cbn; done. }
  split_and!.
  - eapply Forall_impl; [exact HE|]. cbn. tauto.
  - eapply Forall_impl; [exact HE|]. cbn. tauto.
  - intros s Hl.
    destruct (final_job tid path w j Hq Hf)
      as (s0 & n' & k' & r' & _ & Hs0 & Hf0 & Hl').
    unfold job_history in Hl. rewrite Hl' in Hl. injection Hl as <-.
    destruct r' as [df|e]; cbn; rewrite ?Hs0, ?Hf0; intuition congruence.
Qed.

(** ** Progress and log *)

Lemma pct_rows_100 : forallb pct_row_ok (seq 0 101) = true.
Proof. vm_compute. reflexivity. Qed.

Lemma pct_small n i :
  (n <= 100)%nat -> (1 <= i)%nat -> (i <= n)%nat ->
  (1 <= pct (Z.of_nat i) (Z.of_nat n))%Z
  /\ ((i < n)%nat ->
      (pct (Z.of_nat i) (Z.of_nat n) <= pct (Z.of_nat (S i)) (Z.of_nat n))%Z).
Proof.
  intros Hn Hi Hin.
  pose proof pct_rows_100 as H. rewrite forallb_forall in H.
  specialize (H n). unfold pct_row_ok in H. rewrite forallb_forall in H.
  assert (Hn' : In n (seq 0 101)) by (apply in_seq; lia).
  specialize (H Hn' i). 
  assert (Hi' : In i (seq 1 n)) by (apply in_seq; lia).
  specialize (H Hi'). apply andb_true_iff in H as [H1 H2].
  split; [by apply Z.leb_le|].
  intros Hlt. apply Nat.ltb_lt in Hlt. rewrite Hlt in H2. by apply Z.leb_le.
Qed.

Lemma pct_floor_100 :
  forallb (fun n => forallb (fun i => pct_near_floor i n) (seq 1 n))
    (seq 0 101) = true.
Proof. vm_compute. reflexivity. Qed.

Lemma pct_floor_small n i :
  (n <= 100)%nat -> (1 <= i)%nat -> (i <= n)%nat ->
  pct (Z.of_nat i) (Z.of_nat n) = (100 * Z.of_nat i / Z.of_nat n)%Z
  \/ pct (Z.of_nat i) (Z.of_nat n) = (100 * Z.of_nat i / Z.of_nat n - 1)%Z.
Proof.
  intros Hn Hi Hin.
  pose proof pct_floor_100 as H. rewrite forallb_forall in H.
  assert (Hn' : In n (seq 0 101)) by (apply in_seq; lia).
  specialize (H n Hn'). rewrite forallb_forall in H.
  assert (Hi' : In i (seq 1 n)) by (apply in_seq; lia).
  specialize (H i Hi'). unfold pct_near_floor in H.
  apply orb_true_iff in H as [H|H]; apply Z.eqb_eq in H; auto.
Qed.

Lemma replay_app_tail : forall a b j,
  replay j (a ++ b) = replay j a ++ tail (replay (apply_all j a) b).
Proof.
  induction a as [|wr a IH]; intros b j.
  - simpl. by destruct (replay_head j b) as [t ->].
  - change ((wr :: a) ++ b) with (wr :: (a ++ b)). cbn [replay].
    by rewrite IH.
Qed.

Lemma processing_percents_cons s l :
  processing_percents (s :: l) =
  if decide (status s = processing)
  then percent s :: processing_percents l else processing_percents l.
Proof.
  unfold processing_percents. rewrite filter_cons. by destruct (decide _).
Qed.

Lemma processing_percents_app a b :
  processing_percents (a ++ b) = processing_percents a ++ processing_percents b.
Proof. unfold processing_percents. by rewrite filter_app, map_app. Qed.

Lemma pages_status total : forall k tick pno s,
  status (apply_all s (page_writes total tick pno k)) = status s.
Proof.
  induction k as [|k IH]; intros tick pno s; [done|].
  cbn [page_writes page_write app]. unfold apply_all. cbn [foldl].
  fold (apply_all (apply_write (WLog (stamp tick (page_message total pno)))
                     (apply_write (WPercent (pct (Z.of_nat (S pno)) total)) s))
          (page_writes total (S tick) (S pno) k)).
  by rewrite IH.
Qed.

(** While the pages are processed, percent takes the value of each page
    in turn (each value is seen twice: the log entry follows). *)
Lemma pages_percents total : forall k tick pno s,
  status s = processing ->
  processing_percents (replay s (page_writes total tick pno k)) =
  percent s :: flat_map (fun i => [pct (Z.of_nat (S i)) total;
                                   pct (Z.of_nat (S i)) total]) (seq pno k).
Proof.
  induction k as [|k IH]; intros tick pno s Hs.
  - cbn [page_writes replay seq flat_map]. rewrite processing_percents_cons.
    by rewrite decide_True.
  - cbn [page_writes page_write app replay seq flat_map].
    rewrite !processing_percents_cons, !decide_True by done.
    rewrite IH by done. done.
Qed.

Lemma ending_not_processing tid tick r s :
  processing_percents (tail (replay s (ending_writes tid tick r))) = [].
Proof. destruct r; cbn [ending_writes replay tail]; by vm_compute. Qed.

Lemma adjacent_pages (f : nat -> Z) : forall k a x,
  (k <> 0%nat -> (x <= f a)%Z) ->
  (forall i, (a <= i)%nat -> (S i < a + k)%nat -> (f i <= f (S i))%Z) ->
  adjacent Z.le (x :: flat_map (fun i => [f i; f i]) (seq a k)).
Proof.
  induction k as [|k IH]; intros a x Hx Hf; [done|].
  cbn [seq flat_map app]. rewrite adjacent_cons.
  split; [by apply Hx|]. rewrite adjacent_cons. split; [cbn; lia|].
  apply IH.
  - intros Hk. apply Hf; [lia|]. destruct k; [done|lia].
  - intros i Hi1 Hi2. apply Hf; lia.
Qed.

Lemma percent_writes_pages total : forall k tick pno,
  percent_writes (page_writes total tick pno k) =
  map (fun i => pct (Z.of_nat (S i)) total) (seq pno k).
Proof.
  induction k as [|k IH]; intros tick pno; [done|].
  cbn [page_writes page_write app seq map]. unfold percent_writes in *.
  cbn [omap list_omap]. by rewrite IH.
Qed.

Lemma extract_rows_count path : forall pgs pno rows,
  (fst (extract_rows path pno pgs rows) <= length pgs)%nat
  /\ (forall rows', snd (extract_rows path pno pgs rows) = Ok rows' ->
      fst (extract_rows path pno pgs rows) = length pgs).
Proof.
  induction pgs as [|pg pgs IH]; intros pno rows; cbn [extract_rows].
  - cbn. auto.
  - destruct (page_rows path pno pg rows) as [rows1|e].
    + specialize (IH (S pno) rows1).
      destruct (extract_rows path (S pno) pgs rows1) as [k r]. cbn in *.
      destruct IH as [H1 H2]. split; [lia|]. intros rows' E.
      by rewrite (H2 _ E).
    + cbn. split; [lia|done].
Qed.

Lemma task_result_pages tid path w n k r :
  task_result tid path w = (n, k, r) ->
  (k <= n)%nat /\ (forall df, r = Ok df -> k = n).
Proof.
  unfold task_result. destruct (fitz_open (uploads w !! path)) as [doc|e].
  - pose proof (extract_rows_count path doc 0%nat []) as [H1 H2].
    destruct (extract_rows path 0 doc []) as [k' r'] eqn:E. cbn in *.
    intros [= <- <- <-]. split; [done|].
    destruct r' as [rows|e]; [|done]. intros _ _. by apply (H2 rows).
  - intros [= <- <- <-]. split; [lia|done].
Qed.

(** C2. While a job is [processing], its percent never decreases when the
    document has at most 100 pages: it starts from the value the job was
    created with, is set to 1, then after page i of n to the value
    [int(i/n*100)] of binary64 arithmetic, which is the exact quotient
    rounded down or one less. For every page count these are the values
    written, and a run that succeeds writes 100 last and ends with percent
    100. *)
Theorem percent_progress tid path w j n k r :
  status j = queued -> file j = None -> (percent j <= 1)%Z ->
  task_result tid path w = (n, k, r) ->
  ((n <= 100)%nat ->
   nondecreasing (processing_percents (job_history tid path w j))
   /\ forall i, (1 <= i)%nat -> (i <= n)%nat ->
      pct (Z.of_nat i) (Z.of_nat n) = (100 * Z.of_nat i / Z.of_nat n)%Z
      \/ pct (Z.of_nat i) (Z.of_nat n)
         = (100 * Z.of_nat i / Z.of_nat n - 1)%Z)
  /\ percent_writes (task_writes tid path w) =
       1%Z :: map (fun i => pct (Z.of_nat i) (Z.of_nat n)) (seq 1 k)
         ++ match r with Ok _ => [100%Z] | Raise _ => [] end
  /\ (k <= n)%nat
  /\ (forall df, r = Ok df -> k = n)
  /\ (forall s, last (job_history tid path w j) = Some s ->
      status s = done -> percent s = 100%Z).
Proof.
  intros Hq Hf Hp E.
  destruct (task_result_pages _ _ _ _ _ _ E) as [Hk Hok].
  assert (Ew : task_writes tid path w =
            start_writes w ++ page_writes (Z.of_nat n) (S (ticks w)) 0 k
              ++ ending_writes tid (S (ticks w) + k) r).
  { unfold task_writes. by rewrite E. }
  split_and!; [|  | done | done | ].
  - intros Hn. split; [|intros i Hi Hin; by apply pct_floor_small].
    unfold job_history. rewrite Ew. unfold start_writes.
    cbn [app replay apply_write]. rewrite replay_app_tail.
    rewrite !processing_percents_cons, processing_percents_app.
    rewrite ending_not_processing, app_nil_r.
    rewrite pages_percents by done. cbn [status set_status set_percent log_append percent].
    rewrite Hq. rewrite decide_False by done. rewrite !decide_True by done.
    unfold nondecreasing. rewrite adjacent_cons. split; [cbn; lia|].
    rewrite adjacent_cons. split; [cbn; lia|].
    apply (adjacent_pages (fun i => pct (Z.of_nat (S i)) (Z.of_nat n))).
    + intros Hk0. apply pct_small; lia.
    + intros i _ Hi. apply pct_small; lia.
  - rewrite Ew. unfold percent_writes. rewrite !omap_app.
    fold (percent_writes (page_writes (Z.of_nat n) (S (ticks w)) 0 k)).
    rewrite percent_writes_pages. rewrite <- seq_shift, map_map.
    unfold start_writes. cbn [omap list_omap app]. f_equal. f_equal.
    by destruct r.
  - intros s Hl Hs.
    destruct (final_job tid path w j Hq Hf)
      as (s0 & n' & k' & r' & _ & Hs0 & _ & Hl').
    unfold job_history in Hl. rewrite Hl' in Hl. injection Hl as <-.
    destruct r' as [df|e]; cbn in *; [done|discriminate].
Qed.

Lemma stamp_timestamped t m : timestamped (stamp t m).
Proof. by exists (utcnow t), m. Qed.

Lemma log_write_elem m ws : m ∈ log_writes ws <-> WLog m ∈ ws.
Proof.
  unfold log_writes. rewrite list_elem_of_omap. split.
  - intros (wr & Hin & E). destruct wr; try done. by injection E as ->.
  - intros H. by exists (WLog m).
Qed.

(** The job a run leaves in the registry is the last state of its
    history. *)
Lemma final_registry tid path w j :
  tasks w !! tid = Some j -> tid <> [] ->
  tasks (snd (process_task tid path w)) !! tid
  = last (job_history tid path w j).
Proof.
  intros H Hne. rewrite (process_task_run _ _ _ _ H Hne).
  cbn [snd]. unfold set_outputs. cbn [tasks].
  rewrite (commit_tasks _ _ _ _ _ H), lookup_insert_eq.
  unfold job_history. by rewrite replay_last.
Qed.

(** C9. The log of a job only grows. The entries [update_progress] appends
    are time-stamped messages; the entry appended when the job goes to
    [error] is the string of the exception alone, without time stamp, and
    it is the last entry of the log. *)
Theorem log_entries tid path w j :
  status j = queued -> file j = None ->
  append_only (job_history tid path w j)
  /\ (forall m, m ∈ log_writes (task_writes tid path w) ->
      timestamped m \/ snd (task_result tid path w) = Raise m)
  /\ (forall df, snd (task_result tid path w) = Ok df ->
      Forall timestamped (log_writes (task_writes tid path w)))
  /\ (forall e, snd (task_result tid path w) = Raise e ->
      last (log_writes (task_writes tid path w)) = Some e
      /\ exists s, last (job_history tid path w j) = Some s
           /\ status s = error /\ last (log s) = Some e).
Proof.
  intros Hq Hf.
  assert (H2 : forall m, m ∈ log_writes (task_writes tid path w) ->
            timestamped m \/ snd (task_result tid path w) = Raise m).
  { intros m Hm. apply log_write_elem in Hm.
    destruct (task_writes_shape tid path w) as (n & k & r & E & Ew).
    rewrite Ew in Hm. rewrite E. cbn [snd].
    apply elem_of_app in Hm as [Hm | Hm].
    - unfold start_writes in Hm.
      repeat (apply elem_of_cons in Hm as [Hm | Hm]; try done).
      + injection Hm as ->. left. apply stamp_timestamped.
      + by apply elem_of_nil in Hm.
    - apply elem_of_app in Hm as [Hm | Hm].
      + apply page_writes_elem in Hm as [[v Hv] | (t & m' & Hm')]; [done|].
        injection Hm' as ->. left. apply stamp_timestamped.
      + destruct r as [df|e]; cbn [ending_writes] in Hm;
          repeat (apply elem_of_cons in Hm as [Hm | Hm]; try done);
          try (by apply elem_of_nil in Hm).
        * injection Hm as ->. left. apply stamp_timestamped.
        * injection Hm as ->. by right. }
  split_and!.
  - eapply adjacent_impl; [|exact (job_steps tid path w j Hq Hf)].
    unfold job_step. tauto.
  - exact H2.
  - intros df E. apply Forall_forall. intros m Hm.
    destruct (H2 m Hm) as [?|E']; [done|]. congruence.
  - intros e E.
    destruct (task_writes_shape tid path w) as (n & k & r & E1 & Ew).
    rewrite E1 in E. cbn [snd] in E. subst r. split.
    + rewrite Ew, !app_assoc. cbn [ending_writes].
      change [WStatus error; WLog e] with ([WStatus error] ++ [WLog e]).
      rewrite app_assoc. unfold log_writes. rewrite omap_app.
      cbn [omap list_omap]. by rewrite last_snoc.
    + destruct (final_job tid path w j Hq Hf)
        as (s0 & n' & k' & r' & E' & Hs0 & _ & Hl').
      rewrite E1 in E'. injection E' as <- <- <-.
      eexists. split; [exact Hl'|]. cbn. by rewrite last_snoc.
Qed.

(** A time stamp starts with a digit. *)
Lemma digits_fuel_head : forall fuel n acc,
  (fuel <> 0)%nat ->
  exists c t, digits_fuel fuel n acc = c :: t /\ 48 <= c <= 57.
Proof.
  induction fuel as [|f IH]; intros n acc Hf; [done|]. cbn [digits_fuel].
  destruct (n / 10 =? 0) eqn:E.
  - eexists _, _. split; [done|]. unfold digit_char.
    assert (Hd : n mod 10 < 10) by (by apply N.mod_upper_bound).
    revert Hd. generalize (n mod 10). intros x Hx. lia.
  - destruct f as [|f].
    + cbn. eexists _, _. split; [done|]. unfold digit_char.
      assert (Hd : n mod 10 < 10) by (by apply N.mod_upper_bound).
    revert Hd. generalize (n mod 10). intros x Hx. lia.
    + by apply IH.
Qed.

Lemma zpad_head w n : exists c t, zpad w n = c :: t /\ 48 <= c <= 57.
Proof.
  unfold zpad.
  destruct (digits_fuel_head (S (N.to_nat n)) n []) as (c & t & E & Hc); [done|].
  unfold str_of_N. rewrite E.
  destruct (w - length (c :: t))%nat as [|m]; cbn [repeat app].
  - by exists c, t.
  - eexists 48, _. split; [done|lia].
Qed.

Lemma isoformat_head d : exists c t, isoformat d = c :: t /\ 48 <= c <= 57.
Proof.
  unfold isoformat. destruct (zpad_head 4 (year d)) as (c & t & -> & Hc).
  cbn [app]. by eexists c, _.
Qed.

Lemma timestamped_head e : timestamped e -> exists c t, e = c :: t /\ 48 <= c <= 57.
Proof.
  intros (d & m & ->). destruct (isoformat_head d) as (c & t & -> & Hc).
  cbn [app]. by eexists c, _.
Qed.

Lemma adjacent_lookup {A} (R : A -> A -> Prop) (l : list A) i a b :
  adjacent R l -> l !! i = Some a -> l !! S i = Some b -> R a b.
Proof using.
  revert i. induction l as [|x l IH]; intros i H Ha Hb; [done|].
  apply adjacent_cons in H as [H1 H2]. destruct i as [|i].
  - cbn in Ha, Hb. injection Ha as ->. destruct l as [|y l]; [done|].
    cbn in Hb. by injection Hb as ->.
  - by apply (IH i).
Qed.

(** ** Pages *)

Lemma extract_rows_app path : forall pre pno rows rows' more,
  extract_rows path pno pre rows = (length pre, Ok rows') ->
  extract_rows path pno (pre ++ more) rows =
  (length pre + fst (extract_rows path (pno + length pre) more rows'),
   snd (extract_rows path (pno + length pre) more rows'))%nat.
Proof.
  induction pre as [|pg pre IH]; intros pno rows rows' more E.
  - cbn in E. injection E as <-. cbn [app length]. rewrite Nat.add_0_r.
    by destruct (extract_rows path pno more rows).
  - cbn [extract_rows app length] in *.
    destruct (page_rows path pno pg rows) as [rows1|e]; [|done].
    destruct (extract_rows path (S pno) pre rows1) as [k r] eqn:E1.
    injection E as -> ->. rewrite (IH _ _ _ more E1).
    replace (S pno + length pre)%nat with (pno + S (length pre))%nat by lia.
    done.
Qed.

Lemma page_rows_ocr_error path pno pg rows e :
  get_pixmap pg = None -> ocr pg = Raise e ->
  page_rows path pno pg rows = Raise e.
Proof. intros H1 H2. unfold page_rows. by rewrite H1, H2. Qed.

Lemma save_images_ok stem pno1 : forall imgs ii saved,
  Forall image_ok imgs ->
  exists saved', save_images stem pno1 ii imgs saved = Ok saved'.
Proof.
  induction imgs as [|im imgs IH]; intros ii saved H; cbn [save_images].
  - by eexists.
  - inversion H as [|? ? [[x Hx] Hw] H']; subst. rewrite Hx, Hw. by apply IH.
Qed.

Lemma blank_page_rows path pno pg rows :
  blank_page pg -> page_rows path pno pg rows = Ok rows.
Proof.
  intros (H1 & H2 & H3 & o & H4 & H5). unfold page_rows.
  rewrite H1, H4, H2, H5.
  destruct (save_images_ok (splitext_root (basename path))
              (Z.of_nat (S pno)) (get_images pg) 0%nat [] H3) as [saved ->].
  done.
Qed.

Lemma blank_doc_rows path : forall doc pno rows,
  Forall blank_page doc ->
  extract_rows path pno doc rows = (length doc, Ok rows).
Proof.
  induction doc as [|pg doc IH]; intros pno rows H; cbn [extract_rows].
  - done.
  - inversion H as [|? ? Hpg Hdoc]; subst.
    rewrite (blank_page_rows _ _ _ _ Hpg). by rewrite (IH _ _ Hdoc).
Qed.

(** The last state of a run, from its outcome. *)
Lemma final_state tid path w j n k r :
  task_result tid path w = (n, k, r) ->
  exists s,
    last (job_history tid path w j) =
    Some (apply_all s (ending_writes tid (S (ticks w) + k) r)).
Proof.
  intros E. unfold job_history, task_writes. rewrite E.
  rewrite replay_last, app_assoc, apply_all_app. by eexists.
Qed.

(** C1. Recognition is tried under the primary profile and, when that
    raises, once more under the Latin-only profile; when the retry raises
    too, its exception leaves the page loop and the job ends in [error],
    with the string of the exception as the last entry of its log and no
    result path. *)
Theorem ocr_fallback_then_error :
  (forall pg t, ocr_chi_sim_eng pg = Ok t -> ocr pg = Ok t)
  /\ (forall pg e, ocr_chi_sim_eng pg = Raise e -> ocr pg = ocr_eng pg)
  /\ (forall tid path w j pre pg post rows e1 e2,
      tasks w !! tid = Some j -> tid <> [] ->
      status j = queued -> file j = None ->
      fitz_open (uploads w !! path) = Ok (pre ++ pg :: post) ->
      extract_rows path 0 pre [] = (length pre, Ok rows) ->
      get_pixmap pg = None ->
      ocr_chi_sim_eng pg = Raise e1 -> ocr_eng pg = Raise e2 ->
      exists s, tasks (snd (process_task tid path w)) !! tid = Some s
        /\ status s = error /\ file s = None /\ last (log s) = Some e2).
Proof.
  split_and!.
  - intros pg t E. unfold ocr. by rewrite E.
  - intros pg e E. unfold ocr. by rewrite E.
  - intros tid path w j pre pg post rows e1 e2 H Hne Hq Hf Ho Hpre Hpix E1 E2.
    rewrite (final_registry _ _ _ _ H Hne).
    assert (Er : task_result tid path w
                 = (length (pre ++ pg :: post), length pre, Raise e2)).
    { unfold task_result. rewrite Ho.
      rewrite (extract_rows_app _ _ _ _ _ _ Hpre). cbn [extract_rows].
      rewrite (page_rows_ocr_error _ _ _ _ e2 Hpix)
        by (unfold ocr; by rewrite E1).
      cbn [fst snd]. by rewrite Nat.add_0_r. }
    destruct (final_job tid path w j Hq Hf)
      as (s0 & n' & k' & r' & E' & Hs0 & Hf0 & Hl').
    rewrite Er in E'. injection E' as <- <- <-.
    unfold job_history. rewrite Hl'. eexists. split; [done|].
    cbn. rewrite Hf0. by rewrite last_snoc.
Qed.

(** C3. A document without segments still gives a [done] job, with percent
    100 and the result path set; the sheet written has no data row and no
    column at all, the six columns being the keys of the rows: they are
    there as soon as there is one row. A document whose pages all have an
    empty fused text is such a document. *)
Theorem empty_document_sheet tid path w j doc k rows :
  tasks w !! tid = Some j -> tid <> [] ->
  fitz_open (uploads w !! path) = Ok doc ->
  extract_rows path 0 doc [] = (k, Ok rows) ->
  excel_error (out_path tid) = None ->
  (exists s, tasks (snd (process_task tid path w)) !! tid = Some s
     /\ status s = done /\ percent s = 100%Z
     /\ file s = Some (out_path tid))
  /\ outputs (snd (process_task tid path w)) !! out_path tid
     = Some (to_excel (mkDataFrame rows))
  /\ (rows = [] ->
      to_excel (mkDataFrame rows) = {| header := []; body := [] |})
  /\ (rows <> [] ->
      header (to_excel (mkDataFrame rows)) = row_keys
      /\ body (to_excel (mkDataFrame rows)) = map row_values rows)
  /\ (Forall blank_page doc -> rows = []).
Proof.
  intros H Hne Ho Hx He.
  assert (Er : task_result tid path w
               = (length doc, k, Ok (mkDataFrame rows))).
  { unfold task_result. by rewrite Ho, Hx, He. }
  split_and!.
  - rewrite (final_registry _ _ _ _ H Hne).
    destruct (final_state tid path w j _ _ _ Er) as [s ->].
    eexists. split; [done|]. by cbn.
  - rewrite (process_task_run _ _ _ _ H Hne). cbn [snd].
    unfold set_outputs. cbn [outputs]. unfold task_outputs. rewrite Er.
    cbn [snd]. by rewrite lookup_insert_eq.
  - by intros ->.
  - intros Hr. by destruct rows.
  - intros Hb. rewrite (blank_doc_rows path doc 0%nat [] Hb) in Hx.
    by injection Hx as _ <-.
Qed.

(** ** upload_pdf *)

Lemma endswith_spec (suf s : pystr) :
  endswith suf s = true <-> exists stem, s = stem ++ suf.
Proof.
  unfold endswith. split.
  - destruct (decide _) as [E|]; [|done]. intros _.
    exists (take (length s - length suf) s).
    etransitivity; [symmetry; apply (take_drop (length s - length suf))|].
    by rewrite E.
  - intros [stem ->]. rewrite length_app.
    replace (length stem + length suf - length suf)%nat
      with (length stem) by lia.
    rewrite drop_app_length. rewrite decide_True by done.
    apply Nat.leb_le. lia.
Qed.

Lemma lower_char_spec (x y : N) :
  (if (65 <=? x) && (x <=? 90) then x + 32 else x) = y ->
  (y = DOT -> x = DOT)
  /\ (y = 0x70 -> x = 0x70 \/ x = 0x50)
  /\ (y = 0x64 -> x = 0x64 \/ x = 0x44)
  /\ (y = 0x66 -> x = 0x66 \/ x = 0x46).
Proof.
  unfold DOT.
  destruct (N.leb_spec 65 x), (N.leb_spec x 90); cbn; intros <-; lia.
Qed.

Lemma pdf_name_spec (name : pystr) :
  endswith (u ".pdf") (lower name) = true <-> pdf_name name.
Proof.
  rewrite endswith_spec. unfold pdf_name, lower. split.
  - intros [stem E]. apply fmap_app_inv in E as (l1 & l2 & _ & E2 & ->).
    destruct l2 as [|x1 [|x2 [|x3 [|x4 [|? ?]]]]]; try done.
    injection E2 as E1 E2 E3 E4.
    symmetry in E1, E2, E3, E4.
    apply lower_char_spec in E1 as (H1 & _).
    apply lower_char_spec in E2 as (_ & H2 & _).
    apply lower_char_spec in E3 as (_ & _ & H3 & _).
    apply lower_char_spec in E4 as (_ & _ & _ & H4).
    exists l1, x2, x3, x4. rewrite (H1 eq_refl).
    split_and!; [done| | |].
    + destruct (H2 eq_refl) as [-> | ->]; [by left|right; by left].
    + destruct (H3 eq_refl) as [-> | ->]; [by left|right; by left].
    + destruct (H4 eq_refl) as [-> | ->]; [by left|right; by left].
  - intros (stem & a & b & c & -> & Ha & Hb & Hc).
    eexists. rewrite map_app. f_equal.
    repeat (apply elem_of_cons in Ha as [-> | Ha]; [|]);
      [| |by apply elem_of_nil in Ha];
    repeat (apply elem_of_cons in Hb as [-> | Hb]; [|]);
      try (by apply elem_of_nil in Hb);
    repeat (apply elem_of_cons in Hc as [-> | Hc]; [|]);
      try (by apply elem_of_nil in Hc); reflexivity.
Qed.

Lemma upload_rejected up w :
  endswith (u ".pdf") (lower (filename up)) = false ->
  upload_pdf up w = (Ok (JSONError 400 (u "Only PDF files are allowed"), None), w).
Proof. intros E. unfold upload_pdf. by rewrite E. Qed.

Lemma upload_accepted up w :
  endswith (u ".pdf") (lower (filename up)) = true ->
  store_error up = None ->
  upload_pdf up w =
  (Ok (TaskId (uuid_task up), Some (uuid_task up, save_path_of up)),
   {| tasks := <[uuid_task up := new_job up]> (tasks w);
      uploads := <[save_path_of up := content up]> (uploads w);
      outputs := outputs w; ticks := ticks w;
      writes := writes w ++ [(uuid_task up, WNew (new_job up))] |}).
Proof.
  intros E Hs. unfold upload_pdf. rewrite E. cbn [negb].
  unfold bind, store_upload. rewrite Hs. done.
Qed.

(** C10. An upload is judged by its file name alone, never by its bytes: a
    name that does not end in [.pdf] (in any case) is answered with an
    error and the state is left as it is; a name that does, once the bytes
    are stored, gives a new job, queued with percent 0, and its handle,
    whatever the bytes are; when the bytes cannot be stored the exception
    of the store is raised and no job is created; and when the bytes
    cannot be opened as a document, the run of that job ends in [error]
    with the string of the exception in its log. *)
Theorem upload_checks_name_only up w :
  (endswith (u ".pdf") (lower (filename up)) = true <-> pdf_name (filename up))
  /\ (~ pdf_name (filename up) ->
      upload_pdf up w =
      (Ok (JSONError 400 (u "Only PDF files are allowed"), None), w))
  /\ (pdf_name (filename up) -> store_error up = None ->
      exists w',
        upload_pdf up w =
        (Ok (TaskId (uuid_task up), Some (uuid_task up, save_path_of up)), w')
        /\ tasks w' = <[uuid_task up := new_job up]> (tasks w)
        /\ status (new_job up) = queued /\ percent (new_job up) = 0%Z
        /\ file (new_job up) = None
        /\ uploads w' !! save_path_of up = Some (content up))
  /\ (forall c,
      fst (upload_pdf (with_content c up) w) = fst (upload_pdf up w)
      /\ tasks (snd (upload_pdf (with_content c up) w))
         = tasks (snd (upload_pdf up w)))
  /\ (forall e, pdf_name (filename up) -> store_error up = None ->
      uuid_task up <> [] ->
      fitz_open (Some (content up)) = Raise e ->
      exists s, tasks (snd (submit_and_run up w)) !! uuid_task up = Some s
        /\ status s = error /\ file s = None /\ last (log s) = Some e)
  /\ (forall e, pdf_name (filename up) -> store_error up = Some e ->
      fst (upload_pdf up w) = Raise e
      /\ tasks (snd (upload_pdf up w)) = tasks w).
Proof.
  split_and!.
  - apply pdf_name_spec.
  - intros Hn. apply upload_rejected.
    destruct (endswith _ _) eqn:E; [|done]. by apply pdf_name_spec in E.
  - intros Hp Hs. apply pdf_name_spec in Hp.
    eexists. split; [by apply upload_accepted|]. cbn.
    split_and!; try done. by rewrite lookup_insert_eq.
  - intros c. unfold upload_pdf, with_content. cbn [filename].
    destruct (negb _); [done|]. unfold bind, store_upload. cbn [store_error].
    by destruct (store_error up).
  - intros e Hp Hs Hne Ho. apply pdf_name_spec in Hp.
    unfold submit_and_run, bind. rewrite (upload_accepted _ _ Hp Hs).
    cbn [snd fst].
    set (w' := {| tasks := _ |}).
    assert (Hj : tasks w' !! uuid_task up = Some (new_job up))
      by (cbn; by rewrite lookup_insert_eq).
    pose proof (final_registry _ (save_path_of up) _ _ Hj Hne) as Hfin.
    pose proof (process_task_run _ (save_path_of up) _ _ Hj Hne) as Hrun.
    destruct (process_task (uuid_task up) (save_path_of up) w')
      as [res w''] eqn:Ep.
    injection Hrun as -> _. unfold ret. cbn [snd] in Hfin |- *.
    destruct (final_job (uuid_task up) (save_path_of up) w' (new_job up))
      as (s0 & n' & k' & r' & E' & Hs0 & Hf0 & Hl'); [done|done|].
    assert (Er : task_result (uuid_task up) (save_path_of up) w'
                 = (0%nat, 0%nat, Raise e)).
    { unfold task_result. cbn [uploads w']. rewrite lookup_insert_eq.
      by rewrite Ho. }
    rewrite Er in E'. injection E' as <- <- <-.
    eexists. split; [etransitivity; [exact Hfin|exact Hl']|].
    cbn. rewrite Hf0. by rewrite last_snoc.
  - intros e Hp Hs. apply pdf_name_spec in Hp. unfold upload_pdf.
    rewrite Hp. cbn [negb]. unfold bind, store_upload. by rewrite Hs.
Qed.

(** ** More on update_progress and process_task *)

Lemma job_eta (j : Job) :
  {| status := status j; percent := percent j; log := log j; file := file j |}
  = j.
Proof using. by destruct j. Qed.

Lemma world_eta (w : World) :
  {| tasks := tasks w; uploads := uploads w; outputs := outputs w;
     ticks := ticks w; writes := writes w |} = w.
Proof using. by destruct w. Qed.

(** X1. [update_progress] on a handle that is not in the registry does
    nothing at all: no exception, and the state is the same, whatever the
    percent and the message. *)
Theorem update_progress_missing_handle tid p m w :
  tasks w !! tid = None -> update_progress tid p m w = (Ok tt, w).
Proof.
  intros H. unfold update_progress, bind, has_task.
  rewrite bool_decide_eq_false_2; [done|]. rewrite H. by intros [? ?].
Qed.

(** X2. [update_progress] on a known handle never raises and touches only
    the percent and the log of that job: percent becomes the given value
    (it is kept when none is given), the time-stamped message is appended
    (nothing is appended for no message or an empty one); status, result
    path, the other jobs and the files are as they were. *)
Theorem update_progress_known_handle tid p m w j :
  tasks w !! tid = Some j ->
  exists w', update_progress tid p m w = (Ok tt, w')
    /\ tasks w' = <[tid := progressed j p m (ticks w)]> (tasks w)
    /\ uploads w' = uploads w /\ outputs w' = outputs w.
Proof.
  intros H. unfold update_progress, bind, has_task.
  rewrite bool_decide_eq_true_2 by (rewrite H; by eexists). cbn [negb].
  assert (Hid : forall j', j' = j -> tasks w = <[tid := j']> (tasks w)).
  { intros j' ->. by rewrite insert_id. }
  destruct p as [v|], m as [t|]; unfold progressed.
  - unfold write_job at 1. rewrite H. destruct (truthy t) eqn:Ht.
    + unfold now, write_job. cbn [tasks ticks uploads outputs].
      rewrite lookup_insert_eq. eexists. split; [done|]. cbn.
      rewrite insert_insert_eq. done.
    + unfold ret. eexists. split; [done|]. cbn. by rewrite app_nil_r.
  - unfold write_job at 1. rewrite H. unfold ret.
    eexists. split; [done|]. cbn. by rewrite app_nil_r.
  - unfold ret at 1. destruct (truthy t) eqn:Ht.
    + unfold now, write_job. cbn [tasks ticks uploads outputs]. rewrite H.
      eexists. split; [done|]. cbn. done.
    + unfold ret. eexists. split; [done|]. split; [|done].
      apply Hid. rewrite app_nil_r. apply job_eta.
  - unfold ret. eexists. split; [done|]. split; [|done].
    apply Hid. rewrite app_nil_r. apply job_eta.
Qed.

(** X3. [process_task] on a handle that is not in the registry raises: the
    [KeyError] of the first write is caught, and the handler raises it
    again on its own first write. The state is left as it was: nothing is
    opened, written or logged. *)
Theorem process_task_missing_handle tid path w :
  tasks w !! tid = None ->
  exists e, process_task tid path w = (Raise e, w).
Proof.
  intros H. exists (key_error tid). unfold process_task, try_except, bind.
  unfold write_job at 1. rewrite H. unfold write_job. by rewrite H.
Qed.

Lemma log_apply_all : forall ws j,
  field_writes ws -> log (apply_all j ws) = log j ++ log_writes ws.
Proof using.
  induction ws as [|wr ws IH]; intros j H.
  - cbn. by rewrite app_nil_r.
  - inversion H as [|? ? Hwr Hws]; subst.
    change (apply_all j (wr :: ws)) with (apply_all (apply_write wr j) ws).
    rewrite (IH _ Hws). destruct wr; try done; cbn.
    by rewrite <- app_assoc.
Qed.

Lemma page_writes_fields total : forall k tick pno,
  field_writes (page_writes total tick pno k).
Proof.
  induction k as [|k IH]; intros tick pno; [constructor|].
  cbn [page_writes page_write app]. repeat constructor. apply IH.
Qed.

Lemma task_writes_fields tid path w : field_writes (task_writes tid path w).
Proof.
  destruct (task_writes_shape tid path w) as (n & k & r & _ & ->).
  unfold field_writes. rewrite !Forall_app. split_and!.
  - repeat constructor.
  - apply page_writes_fields.
  - destruct r; repeat constructor.
Qed.

Lemma log_writes_pages total : forall k tick pno,
  log_writes (page_writes total tick pno k) =
  map (fun i => stamp (tick + i) (page_message total (pno + i))) (seq 0 k).
Proof.
  induction k as [|k IH]; intros tick pno; [done|].
  cbn [page_writes page_write app seq map]. unfold log_writes in *.
  cbn [omap list_omap]. rewrite IH. rewrite !Nat.add_0_r. f_equal.
  rewrite <- seq_shift, map_map. apply map_ext. intros i.
  by rewrite !Nat.add_succ_r.
Qed.

Lemma log_writes_run tid path w :
  log_writes (task_writes tid path w) = run_log tid path w.
Proof.
  unfold run_log.
  destruct (task_writes_shape tid path w) as (n & k & r & -> & ->).
  unfold log_writes. rewrite !omap_app.
  fold (log_writes (page_writes (Z.of_nat n) (S (ticks w)) 0 k)).
  rewrite log_writes_pages. unfold start_writes. cbn [omap list_omap app].
  f_equal. f_equal. by destruct r.
Qed.

(** X4. Provided every library call of the run returns or raises an
    [Exception] (the outcomes a call has here: a call that never returns,
    or that raises outside [Exception], is not covered), a run of
    [process_task] on a known job returns and leaves the job [done] or
    [error]: [done] exactly when the document was opened, every page
    processed and the sheet written, and then with the result path set and
    percent 100. The log the job had is kept as the beginning of its
    log. *)
Theorem process_task_ends_terminal tid path w j :
  tasks w !! tid = Some j -> tid <> [] ->
  exists w' s, process_task tid path w = (Ok tt, w')
    /\ tasks w' !! tid = Some s
    /\ terminal (status s)
    /\ (status s = done <-> exists df, snd (task_result tid path w) = Ok df)
    /\ (status s = done -> file s = Some (out_path tid) /\ percent s = 100%Z)
    /\ log j `prefix_of` log s.
Proof.
  intros H Hne.
  pose proof (process_task_run tid path w j H Hne) as Hrun.
  pose proof (final_registry tid path w j H Hne) as Hfin.
  destruct (process_task tid path w) as [res w'] eqn:Ep.
  injection Hrun as -> Hw'. cbn [snd] in Hfin.
  destruct (task_result tid path w) as [[n k] r] eqn:Er.
  destruct (final_state tid path w j n k r Er) as [s0 Hl].
  exists w', (apply_all j (task_writes tid path w)). split; [done|].
  assert (Elast : apply_all j (task_writes tid path w)
                  = apply_all s0 (ending_writes tid (S (ticks w) + k) r)).
  { unfold job_history in Hl. rewrite replay_last in Hl. by injection Hl. }
  split; [by rewrite Hfin; unfold job_history; rewrite replay_last|].
  split_and!.
  - rewrite Elast. unfold terminal. destruct r; cbn; auto.
  - rewrite Elast. cbn [snd]. destruct r as [df|e]; cbn.
    + split; [by eexists|done].
    + split; [done|]. by intros [df ?].
  - rewrite Elast. destruct r as [df|e]; cbn; [done|discriminate].
  - rewrite (log_apply_all _ _ (task_writes_fields tid path w)).
    by apply prefix_app_r.
Qed.

Lemma extract_df_raise tid path w e :
  extract_df path w = Raise e -> snd (task_result tid path w) = Raise e.
Proof.
  unfold extract_df, task_result.
  destruct (fitz_open _) as [doc|e']; [|by intros [= ->]].
  destruct (extract_rows path 0 doc []) as [k [rows|e']]; cbn; [done|].
  by intros [= ->].
Qed.

(** X5. A run whose extraction fails (the document cannot be opened, or a
    page raises) writes no sheet: the result files are exactly those there
    were before, the rows of the pages already processed are dropped. A
    run that succeeds writes one sheet, at the result path of its own
    handle, and leaves every other result file as it was. No run changes
    the uploaded files. *)
Theorem run_result_files tid path w j :
  tasks w !! tid = Some j -> tid <> [] ->
  (forall e, extract_df path w = Raise e ->
     outputs (snd (process_task tid path w)) = outputs w)
  /\ (forall df, snd (task_result tid path w) = Ok df ->
     outputs (snd (process_task tid path w))
     = <[out_path tid := to_excel df]> (outputs w))
  /\ uploads (snd (process_task tid path w)) = uploads w.
Proof.
  intros H Hne. rewrite (process_task_run _ _ _ _ H Hne). cbn [snd].
  unfold set_outputs, task_outputs. cbn [outputs uploads commit].
  split_and!; [intros e He|intros df ->|]; [|done|done].
  by rewrite (extract_df_raise _ _ _ _ He).
Qed.

(** X13. The log a run leaves: the log the job had, then the stamped entry
    "start processing", one stamped entry "processed page i/n" for each
    page completed, in page order, then the stamped entry "finished
    processing" on success or the bare string of the exception on
    failure. *)
Theorem run_leaves_log tid path w j :
  tasks w !! tid = Some j -> tid <> [] ->
  exists s, tasks (snd (process_task tid path w)) !! tid = Some s
    /\ log s = log j ++ run_log tid path w
    /\ length (run_log tid path w)
       = (2 + snd (fst (task_result tid path w)))%nat.
Proof.
  intros H Hne. rewrite (final_registry _ _ _ _ H Hne).
  unfold job_history. rewrite replay_last. eexists. split; [done|].
  rewrite (log_apply_all _ _ (task_writes_fields tid path w)).
  rewrite log_writes_run. split; [done|].
  unfold run_log. destruct (task_result tid path w) as [[n k] r].
  cbn [fst snd]. rewrite !length_app, length_map, length_seq.
  destruct r; cbn; lia.
Qed.

(** X14. An upload with an accepted name whose bytes cannot be stored
    raises the exception of the store: no handle is returned, no job is
    created and nothing is handed to the executor. *)
Theorem upload_store_failure up w e :
  endswith (u ".pdf") (lower (filename up)) = true ->
  store_error up = Some e ->
  fst (upload_pdf up w) = Raise e
  /\ tasks (snd (upload_pdf up w)) = tasks w.
Proof.
  intros Hn Hs. unfold upload_pdf. rewrite Hn. cbn [negb].
  unfold bind, store_upload. by rewrite Hs.
Qed.

(** ** Paths and the polling routes *)

Lemma after_last_app c : forall a b,
  mem c b = false -> after_last c (a ++ c :: b) = b.
Proof using.
  induction a as [|x a IH]; intros b Hb.
  - cbn [app after_last]. by rewrite Hb, N.eqb_refl.
  - cbn [app after_last].
    assert (Hm : mem c (a ++ c :: b) = true).
    { apply mem_spec. apply elem_of_app. right. by left. }
    rewrite Hm. by apply IH.
Qed.

Lemma dir_shape (name : pystr) x rest :
  name = rest ++ [x] -> x <> SEP -> hd SEP name <> SEP ->
  forall base, exists pre,
    os_path_join base name = pre ++ name.
Proof using.
  intros -> Hx Hh base. unfold os_path_join.
  destruct (startswith [SEP] (rest ++ [x])) eqn:Es.
  - exfalso. unfold startswith in Es.
    destruct (decide _) as [E|]; [|done].
    destruct rest as [|y rest]; cbn in E, Hh; injection E as E; congruence.
  - destruct (_ || _).
    + by exists base.
    + exists (base ++ [SEP]). by rewrite <- app_assoc.
Qed.

Lemma endswith_sep_false (s : pystr) x rest :
  s = rest ++ [x] -> x <> SEP -> endswith [SEP] s = false.
Proof using.
  intros -> Hx. destruct (endswith [SEP] (rest ++ [x])) eqn:E; [|done].
  apply endswith_spec in E as [stem E].
  apply app_inj_tail in E as [_ E]. congruence.
Qed.

Lemma OUTPUT_DIR_shape :
  exists pre, OUTPUT_DIR = pre ++ u "output" ++ [115].
Proof.
  unfold OUTPUT_DIR.
  destruct (dir_shape (u "outputs") 115 (u "output") eq_refl
              ltac:(done) ltac:(done) BASE_DIR) as [pre ->].
  by exists pre.
Qed.

Lemma out_path_eq tid :
  out_path tid = OUTPUT_DIR ++ [SEP] ++ u "result_" ++ tid ++ u ".xlsx".
Proof.
  unfold out_path. destruct OUTPUT_DIR_shape as [pre E].
  unfold os_path_join.
  assert (Hs : startswith [SEP] (u "result_" ++ tid ++ u ".xlsx") = false)
    by done.
  rewrite Hs.
  assert (Ht : truthy OUTPUT_DIR = true).
  { rewrite E. by destruct pre. }
  assert (He : endswith [SEP] OUTPUT_DIR = false).
  { apply (endswith_sep_false _ 115 (pre ++ u "output")); [|done].
    by rewrite E, app_assoc. }
  by rewrite Ht, He.
Qed.

Lemma out_path_basename tid :
  SEP ∉ tid -> basename (out_path tid) = u "result_" ++ tid ++ u ".xlsx".
Proof.
  intros Hs. rewrite out_path_eq. unfold basename. apply after_last_app.
  destruct (mem SEP (u "result_" ++ tid ++ u ".xlsx")) eqn:E; [|done].
  apply mem_spec in E. exfalso.
  apply elem_of_app in E as [E|E].
  { vm_compute in E. repeat (apply elem_of_cons in E as [E|E]; [done|]).
    by apply elem_of_nil in E. }
  apply elem_of_app in E as [E|E]; [done|].
  vm_compute in E. repeat (apply elem_of_cons in E as [E|E]; [done|]).
  by apply elem_of_nil in E.
Qed.

(** X9. Result files do not collide and are named after the handle: two
    different handles have different result paths, and the result path of
    a handle is the output directory, a separator and
    [result_<handle>.xlsx], which is also the file name offered for
    download when the handle contains no separator. *)
Theorem result_path_names :
  (forall t1 t2, out_path t1 = out_path t2 -> t1 = t2)
  /\ (forall tid,
      out_path tid = OUTPUT_DIR ++ [SEP] ++ u "result_" ++ tid ++ u ".xlsx")
  /\ (forall tid, SEP ∉ tid ->
      basename (out_path tid) = u "result_" ++ tid ++ u ".xlsx").
Proof.
  split_and!.
  - intros t1 t2 E. rewrite !out_path_eq in E.
    apply app_inv_head in E. apply app_inv_head in E.
    apply app_inv_head in E. by apply app_inv_tail in E.
  - apply out_path_eq.
  - apply out_path_basename.
Qed.

Lemma out_path_truthy tid : truthy (out_path tid) = true.
Proof.
  rewrite out_path_eq. destruct OUTPUT_DIR_shape as [pre ->].
  by destruct pre.
Qed.

Lemma download_of_job (tid : pystr) w0 s :
  tasks w0 !! tid = Some s ->
  download_result tid w0 =
  match file s with
  | Some f =>
      if negb (bool_decide (status s = done)) || negb (truthy f)
      then JSONResponse 400 (u "not ready")
      else FileResponse f (basename f) XLSX_MEDIA
  | None => JSONResponse 400 (u "not ready")
  end.
Proof using. intros H. unfold download_result. by rewrite H. Qed.

(** X6. After a run that succeeds, [download_result] for the handle serves
    the result path of the handle under the name [result_<handle>.xlsx],
    and the sheet is on disk at that path; after a run that fails it
    answers 400 "not ready". *)
Theorem download_after_run tid path w j :
  tasks w !! tid = Some j -> tid <> [] -> SEP ∉ tid ->
  (forall df, snd (task_result tid path w) = Ok df ->
     download_result tid (snd (process_task tid path w))
     = FileResponse (out_path tid) (u "result_" ++ tid ++ u ".xlsx") XLSX_MEDIA
     /\ outputs (snd (process_task tid path w)) !! out_path tid
        = Some (to_excel df))
  /\ (forall e, snd (task_result tid path w) = Raise e ->
     download_result tid (snd (process_task tid path w))
     = JSONResponse 400 (u "not ready")).
Proof.
  intros H Hne Hsep.
  pose proof (final_registry tid path w j H Hne) as Hfin.
  pose proof (process_task_run tid path w j H Hne) as Hrun.
  destruct (task_result tid path w) as [[n k] r] eqn:Er.
  destruct (final_state tid path w j n k r Er) as [s0 Hl].
  rewrite Hl in Hfin. cbn [snd]. split.
  - intros df ->. split.
    + rewrite (download_of_job _ _ _ Hfin). cbn.
      rewrite out_path_truthy. cbn. by rewrite (out_path_basename _ Hsep).
    + rewrite Hrun. cbn [snd]. unfold set_outputs, task_outputs.
      cbn [outputs]. rewrite Er. cbn [snd]. by rewrite lookup_insert_eq.
  - intros e ->. rewrite (download_of_job _ _ _ Hfin). cbn.
    by destruct (file s0).
Qed.

(** The result path of a job during a run: none, or the result path of
    the handle once the job is [done]. *)
Lemma history_files tid path w j :
  status j = queued -> file j = None ->
  Forall (fun s => file s = None
                   \/ (status s = done /\ file s = Some (out_path tid)))
    (job_history tid path w j).
Proof.
  intros Hq Hf.
  destruct (job_history_split tid path w j) as (n & k & r & _ & ->).
  destruct (running_phase (fun _ _ => True) w n k j Hq Hf)
    as (HF & _ & Hs & Hfile); auto.
  rewrite Forall_replay_app. split.
  - eapply Forall_impl; [exact HF|]. cbn. intros s [E _]. by left.
  - destruct (apply_all j _) as [st pc lg fl]. cbn in Hs, Hfile. subst.
    destruct r as [df|e]; cbn [ending_writes replay apply_write];
      repeat (apply List.Forall_cons; [cbn; first [by left | by right]|]);
      apply List.Forall_nil.
Qed.

(** X7. At no point of a run does [download_result] serve anything but the
    finished result: in every state the job goes through, the answer is
    400 "not ready", or it is the result path of the handle and the job is
    [done]. *)
Theorem download_during_run tid path w j s w0 :
  status j = queued -> file j = None ->
  s ∈ job_history tid path w j ->
  tasks w0 !! tid = Some s ->
  download_result tid w0 = JSONResponse 400 (u "not ready")
  \/ (download_result tid w0
      = FileResponse (out_path tid) (basename (out_path tid)) XLSX_MEDIA
      /\ status s = done).
Proof.
  intros Hq Hf Hin H0.
  pose proof (history_files tid path w j Hq Hf) as HF.
  rewrite Forall_forall in HF. specialize (HF s Hin).
  unfold download_result. rewrite H0.
  destruct HF as [-> | [Hs ->]]; [by left|].
  rewrite Hs, out_path_truthy. cbn. by right.
Qed.

(** X8. After an accepted upload, [get_progress] for the new handle
    returns the new job, queued with percent 0, the single log entry
    "uploaded <name>" and no result path, and [download_result] answers
    400 "not ready"; the answers for every other handle are what they
    were. A handle that is not in the registry gets 404 "task not found"
    from both routes. *)
Theorem polling_after_upload up w :
  endswith (u ".pdf") (lower (filename up)) = true ->
  store_error up = None ->
  get_progress (uuid_task up) (snd (upload_pdf up w))
  = JobDict {| status := queued; percent := 0;
               log := [u "uploaded " ++ filename up]; file := None |}
  /\ download_result (uuid_task up) (snd (upload_pdf up w))
     = JSONResponse 400 (u "not ready")
  /\ (forall tid', tid' <> uuid_task up ->
      get_progress tid' (snd (upload_pdf up w)) = get_progress tid' w
      /\ download_result tid' (snd (upload_pdf up w)) = download_result tid' w)
  /\ (forall tid' w0, tasks w0 !! tid' = None ->
      get_progress tid' w0 = JSONResponse 404 (u "task not found")
      /\ download_result tid' w0 = JSONResponse 404 (u "task not found")).
Proof.
  intros Hn Hs. rewrite (upload_accepted _ _ Hn Hs). cbn [snd].
  unfold get_progress, download_result. cbn [tasks].
  split_and!.
  - by rewrite lookup_insert_eq.
  - by rewrite lookup_insert_eq.
  - intros tid' Hd. by rewrite lookup_insert_ne.
  - intros tid' w0 H0. by rewrite H0.
Qed.

(** ** Rows, and extraction without a job *)

Lemma chunk_rows_new src pno1 images : forall chunks rows,
  exists g, chunk_rows src pno1 images chunks rows = rows ++ g
    /\ Forall (fun r => page r = pno1 /\ source_file r = src
                 /\ raw_text r <> [] /\ strip (raw_text r) = raw_text r
                 /\ question_type r = classify_question (Some (raw_text r))
                 /\ inline_equations r
                    = join (u ";") (eqs_of_chunk (raw_text r))
                 /\ local_images r = images) g.
Proof.
  induction chunks as [|c chunks IH]; intros rows; cbn [chunk_rows].
  - exists []. by rewrite app_nil_r.
  - destruct (strip c) as [|x s] eqn:E; cbn [truthy negb].
    + apply IH.
    + assert (Hs : strip (x :: s) = x :: s)
        by (rewrite <- E; apply strip_idem).
      match goal with
      | |- exists g, chunk_rows _ _ _ _ (rows ++ [?r]) = _ /\ _ =>
          destruct (IH (rows ++ [r])) as (g & E' & Hg); exists (r :: g)
      end.
      rewrite E', <- app_assoc. split; [done|].
      constructor; [|done]. cbn [page source_file raw_text question_type
                                  inline_equations local_images].
      split_and!; done.
Qed.

Lemma page_rows_new path pno pg rows rows1 :
  page_rows path pno pg rows = Ok rows1 ->
  exists g, rows1 = rows ++ g /\ Forall (row_of_page path pno) g.
Proof.
  unfold page_rows. destruct (get_pixmap pg); [done|].
  destruct (ocr pg) as [o|]; [|done]. destruct (img_save pg); [done|].
  destruct (save_images _ _ _ _ _) as [saved|]; [|done].
  intros [= <-].
  destruct (chunk_rows_new (basename path) (Z.of_nat (S pno))
              (join (u ";")
                 (saved ++ [os_path_join IMG_DIR
                    (basename path ++ u "_p" ++ str_of_int (Z.of_nat (S pno))
                       ++ u ".png")]))
              (re_split marker_re
                 (strip (str_or (get_text pg) [] ++ [LF] ++ o))) rows)
    as (g & E & Hg).
  exists g. split; [exact E|].
  eapply Forall_impl; [exact Hg|]. intros r (? & ? & ? & ? & ? & ? & ?).
  unfold row_of_page, page_image. split_and!; try done. by exists saved.
Qed.

Lemma extract_rows_groups path : forall pgs pno rows k rows',
  extract_rows path pno pgs rows = (k, Ok rows') ->
  exists groups, rows' = rows ++ concat groups
    /\ length groups = length pgs
    /\ forall i g, groups !! i = Some g ->
         Forall (row_of_page path (pno + i)) g.
Proof.
  induction pgs as [|pg pgs IH]; intros pno rows k rows' E;
    cbn [extract_rows] in E.
  - injection E as _ <-. exists []. rewrite app_nil_r. by split_and!.
  - destruct (page_rows path pno pg rows) as [rows1|e] eqn:Ep; [|done].
    destruct (extract_rows path (S pno) pgs rows1) as [k1 r1] eqn:E1.
    injection E as _ ->.
    destruct (page_rows_new _ _ _ _ _ Ep) as (g & -> & Hg).
    destruct (IH _ _ _ _ E1) as (gs & -> & Hlen & Hgs).
    exists (g :: gs). cbn [concat length]. rewrite <- app_assoc.
    split_and!; [done|by rewrite Hlen|].
    intros [|i] g' Hl; cbn in Hl.
    + injection Hl as <-. by rewrite Nat.add_0_r.
    + rewrite Nat.add_succ_r. by apply (Hgs i).
Qed.

(** X10. The rows of a document come page by page, in page order: they
    are the concatenation of one group per page, and every row of the group
    of page i carries the page number i (from 1 to the page count), the
    base name of the file, a trimmed non-empty text, the label and the
    joined equations of that text, and a list of images that ends with the
    raster of page i. *)
Theorem rows_grouped_by_page path doc k rows :
  extract_rows path 0 doc [] = (k, Ok rows) ->
  (exists groups, rows = concat groups
     /\ length groups = length doc
     /\ forall i g, groups !! i = Some g -> Forall (row_of_page path i) g)
  /\ Forall (fun r => (1 <= page r <= Z.of_nat (length doc))%Z) rows.
Proof.
  intros E.
  destruct (extract_rows_groups _ _ _ _ _ _ E) as (groups & -> & Hlen & Hg).
  split.
  - exists groups. split_and!; [done|done|]. intros i g Hl. by apply Hg.
  - cbn [app]. apply Forall_forall. intros r Hr.
    apply list_elem_of_In, in_concat in Hr as (g & Hgin & Hrg).
    apply list_elem_of_In in Hgin. apply list_elem_of_In in Hrg.
    apply list_elem_of_lookup in Hgin as [i Hi].
    pose proof (lookup_lt_Some _ _ _ Hi) as Hlt.
    specialize (Hg i g Hi). rewrite Forall_forall in Hg.
    destruct (Hg r Hrg) as (Hp & _). cbn in Hp. lia.
Qed.

Lemma page_loop_silent path t total : forall pgs pno rows w,
  (match t with
   | Some tid => truthy tid = false \/ tasks w !! tid = None
   | None => True
   end) ->
  page_loop path t total pno pgs rows w
  = (snd (extract_rows path pno pgs rows), w).
Proof.
  induction pgs as [|pg pgs IH]; intros pno rows w Ht;
    cbn [page_loop extract_rows]; [done|].
  unfold bind, lift. destruct (page_rows path pno pg rows) as [rows1|e];
    [|done].
  assert (E : (match t with
               | Some tid =>
                   if truthy tid
                   then update_progress tid
                          (Some (pct (Z.of_nat (S pno)) total))
                          (Some (u "processed page "
                                   ++ str_of_int (Z.of_nat (S pno)) ++ u "/"
                                   ++ str_of_int total))
                   else ret tt
               | None => ret tt
               end) w = (Ok tt, w)).
  { destruct t as [tid|]; [|done]. destruct Ht as [-> | Hn]; [done|].
    destruct (truthy tid); [|done].
    unfold update_progress, bind, has_task.
    rewrite bool_decide_eq_false_2; [done|]. rewrite Hn. by intros [? ?]. }
  rewrite E, (IH _ _ _ Ht).
  by destruct (extract_rows path (S pno) pgs rows1).
Qed.

(** X11. The table [extract_single_pdf_to_df] returns does not depend on
    the handle it is given; and with no handle, an empty one, or one that
    is not in the registry, it writes nothing: the state is left as it
    was. *)
Theorem extraction_ignores_handle path t w :
  fst (extract_single_pdf_to_df path t w) = extract_df path w
  /\ (match t with
      | Some tid => tid = [] \/ tasks w !! tid = None
      | None => True
      end ->
      snd (extract_single_pdf_to_df path t w) = w).
Proof.
  unfold extract_single_pdf_to_df, extract_df, bind, read_upload, lift.
  destruct (fitz_open (uploads w !! path)) as [doc|e]; [|done].
  assert (Hsil : (match t with
                  | Some tid => truthy tid = false \/ tasks w !! tid = None
                  | None => True
                  end) ->
            page_loop path t (Z.of_nat (length doc)) 0 doc [] w
            = (snd (extract_rows path 0 doc []), w))
    by apply page_loop_silent.
  split.
  - destruct t as [tid|].
    + destruct (tasks w !! tid) as [j|] eqn:Hj.
      * destruct tid as [|c tid].
        -- rewrite Hsil by (by left).
           by destruct (snd (extract_rows path 0 doc [])).
        -- rewrite (page_loop_run _ _ _ _ _ _ _ _ Hj) by done.
           by destruct (snd (extract_rows path 0 doc [])).
      * rewrite Hsil by (by right).
        by destruct (snd (extract_rows path 0 doc [])).
    + rewrite Hsil by done. by destruct (snd (extract_rows path 0 doc [])).
  - intros Ht. rewrite Hsil.
    + by destruct (snd (extract_rows path 0 doc [])).
    + destruct t as [tid|]; [|done].
      destruct Ht as [-> | Hn]; [by left|by right].
Qed.

Lemma strip_outer (a t b : pystr) :
  Forall (fun c => isspace c = true) a ->
  Forall (fun c => isspace c = true) b ->
  strip (a ++ t ++ b) = strip t.
Proof.
  intros Ha Hb. unfold strip, lstrip.
  rewrite (dropwhile_app_stop _ _ _ Ha).
  destruct (dropwhile_split isspace t) as (ws & Et & Hws).
  rewrite Et at 1. rewrite <- app_assoc, (dropwhile_app_stop _ _ _ Hws).
  destruct (dropwhile isspace t) as [|c t'] eqn:E.
  - cbn [app]. by rewrite (dropwhile_all _ _ Hb).
  - cbn [app dropwhile]. rewrite (dropwhile_head _ _ _ _ E).
    unfold rstrip. change (c :: t' ++ b) with ((c :: t') ++ b).
    rewrite rev_app_distr.
    by rewrite (dropwhile_app_stop _ _ _ (Forall_rev Hb)).
Qed.

(** X12. The label of a text does not change when whitespace is put
    around it, and no text at all ([None]) or the empty text is a
    free-response question. *)
Theorem classify_ignores_outer_whitespace (a t b : pystr) :
  Forall (fun c => isspace c = true) a ->
  Forall (fun c => isspace c = true) b ->
  classify_question (Some (a ++ t ++ b)) = classify_question (Some t)
  /\ classify_question None = label_free
  /\ classify_question (Some []) = label_free.
Proof.
  intros Ha Hb. split_and!.
  - unfold classify_question.
    assert (E : forall s : pystr, str_or s [] = s) by (by intros []).
    by rewrite !E, strip_outer.
  - by vm_compute.
  - by vm_compute.
Qed.

(** ** Bounds of percent, and runs of several jobs *)

Lemma page_writes_percent total : forall k tick pno wr,
  wr ∈ page_writes total tick pno k ->
  (exists i, (pno <= i < pno + k)%nat
     /\ wr = WPercent (pct (Z.of_nat (S i)) total))
  \/ (exists t m, wr = WLog (stamp t m)).
Proof.
  induction k as [|k IH]; intros tick pno wr H; simpl in H.
  - by apply elem_of_nil in H.
  - apply elem_of_cons in H as [-> | H]; [left; exists pno; split; [lia|done]|].
    apply elem_of_cons in H as [-> | H]; [right; eauto|].
    apply IH in H as [(i & Hi & ->) | ?]; [left|by right].
    exists i. split; [lia|done].
Qed.

Lemma task_percents_bounded tid path w n k r v :
  task_result tid path w = (n, k, r) -> (n <= 100)%nat ->
  WPercent v ∈ task_writes tid path w -> (1 <= v <= 100)%Z.
Proof.
  intros E Hn Hin.
  destruct (task_result_pages _ _ _ _ _ _ E) as [Hk _].
  unfold task_writes in Hin. rewrite E in Hin.
  apply elem_of_app in Hin as [Hin | Hin].
  { unfold start_writes in Hin.
    repeat (apply elem_of_cons in Hin as [Hin | Hin]; try done).
    - injection Hin as ->. lia.
    - by apply elem_of_nil in Hin. }
  apply elem_of_app in Hin as [Hin | Hin].
  - apply page_writes_percent in Hin as [(i & Hi & Hv) | (t & m & ?)];
      [|done].
    injection Hv as ->.
    destruct (pct_small n (S i)) as [H1 _]; [lia..|].
    destruct (pct_floor_small n (S i)) as [H2 | H2]; [lia..| |].
    + split; [done|]. rewrite H2.
      apply Z.div_le_upper_bound; lia.
    + split; [done|]. rewrite H2.
      assert (100 * Z.of_nat (S i) / Z.of_nat n <= 100)%Z
        by (apply Z.div_le_upper_bound; lia).
      lia.
  - destruct r as [df|e]; cbn [ending_writes] in Hin;
      repeat (apply elem_of_cons in Hin as [Hin | Hin]; try done);
      try (by apply elem_of_nil in Hin).
    injection Hin as ->. lia.
Qed.

(** X15. For a document of at most 100 pages, the percent of a job that
    starts between 0 and 100 stays between 0 and 100 at every point of the
    run, and every value the run writes to percent is between 1 and
    100. *)
Theorem percent_within_bounds tid path w j n k r :
  task_result tid path w = (n, k, r) -> (n <= 100)%nat ->
  (0 <= percent j <= 100)%Z ->
  Forall (fun s => (0 <= percent s <= 100)%Z) (job_history tid path w j)
  /\ Forall (fun v => (1 <= v <= 100)%Z)
       (percent_writes (task_writes tid path w)).
Proof.
  intros E Hn Hj. split.
  - unfold job_history.
    destruct (replay_invariant (fun s => (0 <= percent s <= 100)%Z)
                (fun _ _ => True) (task_writes tid path w) j Hj)
      as (HF & _); [|done].
    intros s wr Hin Hs. split; [|done].
    pose proof (task_writes_fields tid path w) as Hf.
    unfold field_writes in Hf. rewrite Forall_forall in Hf.
    specialize (Hf wr Hin).
    destruct wr as [st|v|m|f|j']; cbn; try done.
    pose proof (task_percents_bounded _ _ _ _ _ _ v E Hn Hin). lia.
  - apply Forall_forall. intros v Hv.
    unfold percent_writes in Hv. apply list_elem_of_omap in Hv as (wr & Hin & Ew).
    destruct wr; try done. injection Ew as ->.
    by apply (task_percents_bounded _ _ _ _ _ _ v E Hn).
Qed.

Lemma task_result_uploads tid path w w' :
  uploads w = uploads w' -> task_result tid path w = task_result tid path w'.
Proof. intros E. unfold task_result. by rewrite E. Qed.

Lemma page_writes_same total : forall k tick tick' pno,
  Forall2 same_but_log (page_writes total tick pno k)
    (page_writes total tick' pno k).
Proof.
  induction k as [|k IH]; intros tick tick' pno; [constructor|].
  cbn [page_writes page_write app]. repeat constructor. apply IH.
Qed.

Lemma task_writes_same tid path w w' :
  uploads w = uploads w' ->
  Forall2 same_but_log (task_writes tid path w) (task_writes tid path w').
Proof.
  intros E. unfold task_writes. rewrite (task_result_uploads _ _ _ _ E).
  destruct (task_result tid path w') as [[n k] r].
  apply Forall2_app; [repeat constructor|].
  apply Forall2_app; [apply page_writes_same|].
  destruct r; repeat constructor.
Qed.

Lemma apply_all_same : forall ws ws' s s',
  Forall2 same_but_log ws ws' -> same_but_log_text s s' ->
  same_but_log_text (apply_all s ws) (apply_all s' ws').
Proof using.
  intros ws ws' s s' H. revert s s'.
  induction H as [|a b ws ws' Hab _ IH]; intros s s' Hs; [done|].
  change (apply_all s (a :: ws)) with (apply_all (apply_write a s) ws).
  change (apply_all s' (b :: ws')) with (apply_all (apply_write b s') ws').
  apply IH. destruct Hs as (H1 & H2 & H3 & H4). unfold same_but_log_text.
  destruct a, b; cbn in Hab; try done; try (injection Hab as <-);
    cbn; rewrite ?length_app; cbn; split_and!; auto; lia.
Qed.

Lemma run_tasks (tid : pystr) path w j :
  tasks w !! tid = Some j -> tid <> [] ->
  tasks (snd (process_task tid path w))
  = <[tid := apply_all j (task_writes tid path w)]> (tasks w)
  /\ uploads (snd (process_task tid path w)) = uploads w.
Proof.
  intros H Hne. rewrite (process_task_run _ _ _ _ H Hne). cbn [snd].
  unfold set_outputs. cbn [tasks uploads].
  by rewrite (commit_tasks _ _ _ _ _ H).
Qed.

(** X16. Runs for different handles do not disturb each other: a run for
    the second handle leaves the job of the first as the first run left it,
    and it has the same outcome, and leaves its own job with the same
    status, percent, result path and number of log entries, whether or not
    the first run took place before (the time stamps in its log may
    differ). *)
Theorem runs_do_not_interfere (t1 t2 : pystr) p1 p2 w j1 j2 :
  tasks w !! t1 = Some j1 -> tasks w !! t2 = Some j2 ->
  t1 <> t2 -> t1 <> [] -> t2 <> [] ->
  tasks (snd (process_task t2 p2 (snd (process_task t1 p1 w)))) !! t1
  = tasks (snd (process_task t1 p1 w)) !! t1
  /\ task_result t2 p2 (snd (process_task t1 p1 w)) = task_result t2 p2 w
  /\ exists s s',
       tasks (snd (process_task t2 p2 (snd (process_task t1 p1 w)))) !! t2
       = Some s
       /\ tasks (snd (process_task t2 p2 w)) !! t2 = Some s'
       /\ same_but_log_text s s'.
Proof.
  intros H1 H2 Hd Hn1 Hn2.
  destruct (run_tasks t1 p1 w j1 H1 Hn1) as [Ea Eu].
  set (wa := snd (process_task t1 p1 w)) in *.
  assert (H2a : tasks wa !! t2 = Some j2).
  { rewrite Ea. rewrite lookup_insert_ne by done. exact H2. }
  destruct (run_tasks t2 p2 wa j2 H2a Hn2) as [Eab _].
  destruct (run_tasks t2 p2 w j2 H2 Hn2) as [Eb _].
  split_and!.
  - rewrite Eab. by rewrite lookup_insert_ne.
  - by apply task_result_uploads.
  - exists (apply_all j2 (task_writes t2 p2 wa)),
      (apply_all j2 (task_writes t2 p2 w)).
    split_and!.
    + rewrite Eab. by rewrite lookup_insert_eq.
    + rewrite Eb. by rewrite lookup_insert_eq.
    + apply apply_all_same; [by apply task_writes_same|].
      by unfold same_but_log_text.
Qed.

(** ** File names *)

Lemma value_of_snoc ds c : value_of (ds ++ [c]) = 10 * value_of ds + (c - 48).
Proof using. unfold value_of. by rewrite fold_left_app. Qed.

Lemma digits_fuel_value : forall fuel n acc,
  (N.to_nat n < fuel)%nat ->
  exists ds, digits_fuel fuel n acc = ds ++ acc /\ value_of ds = n
    /\ Forall (fun c => decimal_digit c = true) ds.
Proof using.
  induction fuel as [|f IH]; intros n acc Hf; [lia|]. cbn [digits_fuel].
  assert (Hd : digit_char (n mod 10) - 48 = n mod 10)
    by (unfold digit_char; generalize (n mod 10); intros x; lia).
  assert (Hn : n = 10 * (n / 10) + n mod 10) by (apply N.div_mod; lia).
  assert (Hg : decimal_digit (digit_char (n mod 10)) = true).
  { assert (H : n mod 10 < 10) by (apply N.mod_lt; lia).
    unfold decimal_digit, digit_char. revert H. generalize (n mod 10).
    intros x H. apply andb_true_iff. split; apply N.leb_le; lia. }
  destruct (N.eqb_spec (n / 10) 0) as [E|E].
  - exists [digit_char (n mod 10)]. split; [done|]. split.
    + unfold value_of. cbn [fold_left]. rewrite Hd. rewrite E in Hn.
      revert Hn. generalize (n mod 10). intros x Hx. lia.
    + by constructor.
  - destruct (IH (n / 10) (digit_char (n mod 10) :: acc))
      as (ds & -> & Hv & HF).
    { assert (H : n / 10 < n).
      { apply N.div_lt; [|lia].
        destruct (N.eq_dec n 0) as [->|]; [by destruct E|lia]. }
      revert H. generalize (n / 10). intros q H. lia. }
    exists (ds ++ [digit_char (n mod 10)]). split; [by rewrite <- app_assoc|].
    split.
    + rewrite value_of_snoc, Hv, Hd. symmetry. exact Hn.
    + apply Forall_app. split; [done|by constructor].
Qed.

Lemma str_of_N_digits n : Forall (fun c => decimal_digit c = true) (str_of_N n).
Proof using.
  unfold str_of_N.
  destruct (digits_fuel_value (S (N.to_nat n)) n []) as (ds & -> & _ & HF);
    [lia|].
  by rewrite app_nil_r.
Qed.

Lemma str_of_N_value n : value_of (str_of_N n) = n.
Proof using.
  unfold str_of_N.
  destruct (digits_fuel_value (S (N.to_nat n)) n []) as (ds & -> & Hv & _);
    [lia|].
  by rewrite app_nil_r.
Qed.

Lemma str_of_N_inj n m : str_of_N n = str_of_N m -> n = m.
Proof using.
  intros E. rewrite <- (str_of_N_value n), <- (str_of_N_value m). by rewrite E.
Qed.

Lemma after_last_no_sep c : forall s, mem c (after_last c s) = false.
Proof using.
  induction s as [|x s IH]; [done|]. cbn [after_last].
  destruct (mem c s) eqn:Em; [done|].
  destruct (N.eqb_spec x c) as [->|Hx]; [done|].
  unfold mem in *. cbn [existsb]. rewrite Em, orb_false_r.
  apply N.eqb_neq. congruence.
Qed.

Lemma os_path_join_inj base (x y : pystr) :
  startswith [SEP] x = false -> startswith [SEP] y = false ->
  os_path_join base x = os_path_join base y -> x = y.
Proof using.
  intros Hx Hy. unfold os_path_join. rewrite Hx, Hy.
  destruct (_ || _); intros E.
  - by apply app_inv_head in E.
  - apply app_inv_head in E. by injection E.
Qed.

Lemma name_relative (b rest : pystr) :
  mem SEP b = false -> startswith [SEP] (b ++ u "_p" ++ rest) = false.
Proof using.
  intros Hm. unfold startswith. destruct b as [|c b]; [done|].
  destruct (decide _) as [E'|]; [|done]. cbn in E'. injection E' as ->.
  unfold mem in Hm. cbn in Hm. done.
Qed.

Lemma raster_name_relative path (rest : pystr) :
  startswith [SEP] (basename path ++ u "_p" ++ rest) = false.
Proof using. apply name_relative, after_last_no_sep. Qed.

(** X17. The rasters of two different pages of a document are saved under
    different names, so no page overwrites the raster of another; the
    decimal rendering of a number determines the number. *)
Theorem page_images_distinct path (i j : nat) :
  i <> j ->
  page_image path (Z.of_nat (S i)) <> page_image path (Z.of_nat (S j)).
Proof.
  intros Hij E. apply Hij. clear Hij. unfold page_image in E.
  apply os_path_join_inj in E; [|apply raster_name_relative..].
  apply app_inv_head in E. apply app_inv_head in E.
  apply app_inv_tail in E. unfold str_of_int in E.
  apply str_of_N_inj in E. lia.
Qed.

(** A run of digits followed by a character that is no digit can be read
    in one way only. *)
Lemma digit_prefix_unique : forall (d1 d2 : pystr) c1 c2 (r1 r2 : pystr),
  Forall (fun c => decimal_digit c = true) d1 ->
  Forall (fun c => decimal_digit c = true) d2 ->
  decimal_digit c1 = false -> decimal_digit c2 = false ->
  d1 ++ c1 :: r1 = d2 ++ c2 :: r2 ->
  d1 = d2 /\ c1 = c2 /\ r1 = r2.
Proof using.
  induction d1 as [|x d1 IH]; intros [|y d2] c1 c2 r1 r2 H1 H2 Hc1 Hc2 E.
  - by injection E.
  - injection E as -> _. inversion H2; subst. congruence.
  - injection E as -> _. inversion H1; subst. congruence.
  - injection E as -> E. inversion H1; subst. inversion H2; subst.
    destruct (IH d2 c1 c2 r1 r2) as (-> & -> & ->); done.
Qed.

Lemma after_last_split c : forall s,
  mem c s = true -> exists pre, s = pre ++ c :: after_last c s.
Proof using.
  induction s as [|x s IH]; [done|]. intros Hm. cbn [after_last].
  destruct (mem c s) eqn:Em.
  - destruct (IH eq_refl) as [pre E]. exists (x :: pre). cbn. by f_equal.
  - unfold mem in Hm, Em. cbn [existsb] in Hm. rewrite Em, orb_false_r in Hm.
    apply N.eqb_eq in Hm. subst x. rewrite N.eqb_refl. by exists [].
Qed.

(** The root of a name is the name, or what comes before one of its
    dots. *)
Lemma splitext_root_shape (name : pystr) :
  splitext_root name = name
  \/ exists ext, name = splitext_root name ++ DOT :: ext.
Proof using.
  unfold splitext_root. destruct (mem DOT name) eqn:Em; [|by left].
  destruct (after_last_split DOT name Em) as [pre E].
  assert (Et : take (length name - S (length (after_last DOT name))) name
               = pre).
  { rewrite E at 1 3. rewrite length_app. cbn [length].
    replace (length pre + S (length (after_last DOT name))
             - S (length (after_last DOT name)))%nat
      with (length pre) by lia.
    by rewrite take_app_length. }
  rewrite Et. destruct (forallb _ pre); [by left|].
  right. by exists (after_last DOT name).
Qed.

Lemma mem_app c (a b : pystr) : mem c (a ++ b) = mem c a || mem c b.
Proof using. unfold mem. apply existsb_app. Qed.

Lemma splitext_root_no_sep (name : pystr) :
  mem SEP name = false -> mem SEP (splitext_root name) = false.
Proof using.
  intros Hm. destruct (splitext_root_shape name) as [-> | [ext E]]; [done|].
  rewrite E, mem_app in Hm. by apply orb_false_iff in Hm as [Hm _].
Qed.

Lemma image_name_relative path (rest : pystr) :
  startswith [SEP] (splitext_root (basename path) ++ u "_p" ++ rest) = false.
Proof using. apply name_relative, splitext_root_no_sep, after_last_no_sep. Qed.

Lemma str_of_int_inj (i j : nat) :
  str_of_int (Z.of_nat i) = str_of_int (Z.of_nat j) -> i = j.
Proof using. unfold str_of_int. intros E. apply str_of_N_inj in E. lia. Qed.

(** X19. Within a document no two embedded images are written to the same
    file: the files of two images differ as soon as the images are on
    different pages or at different positions of a page, whatever their
    extensions. *)
Theorem embedded_images_distinct path (i j ii jj : nat) (e1 e2 : pystr) :
  (i, ii) <> (j, jj) ->
  image_path path (Z.of_nat (S i)) ii e1
  <> image_path path (Z.of_nat (S j)) jj e2.
Proof.
  intros Hd E. apply Hd. clear Hd. unfold image_path in E.
  apply os_path_join_inj in E; [|apply image_name_relative..].
  apply app_inv_head in E. apply app_inv_head in E.
  change (u "_") with [95] in E. change (u ".") with [46] in E.
  cbn [app] in E.
  apply digit_prefix_unique in E as (E1 & _ & E);
    [|apply str_of_N_digits..|done|done].
  apply digit_prefix_unique in E as (E2 & _ & _);
    [|apply str_of_N_digits..|done|done].
  apply str_of_int_inj in E1. apply str_of_int_inj in E2.
  f_equal; lia.
Qed.

(** X20. The raster of a page is never written to the file of an embedded
    image, of the same page or of another, whatever the name of the
    document. *)
Theorem raster_not_embedded path (i j ii : nat) (e : pystr) :
  page_image path (Z.of_nat (S i)) <> image_path path (Z.of_nat (S j)) ii e.
Proof.
  unfold page_image, image_path. intros E.
  apply os_path_join_inj in E;
    [|apply raster_name_relative|apply image_name_relative].
  destruct (splitext_root_shape (basename path)) as [Er | [ext Er]].
  - rewrite Er in E. apply app_inv_head in E. apply app_inv_head in E.
    change (u ".png") with (46 :: u "png") in E.
    change (u "_") with [95] in E. cbn [app] in E.
    apply digit_prefix_unique in E as (_ & E & _);
      [|apply str_of_N_digits..|done|done].
    discriminate E.
  - rewrite Er in E at 1. rewrite <- app_assoc in E.
    apply app_inv_head in E. discriminate E.
Qed.

(** ** From the upload to the download *)

Lemma get_progress_of_job (tid : pystr) w0 s :
  tasks w0 !! tid = Some s -> get_progress tid w0 = JobDict s.
Proof using. intros H. unfold get_progress. by rewrite H. Qed.

(** The job a run leaves, field by field. *)
Lemma run_final_fields tid path w j :
  status j = queued -> file j = None ->
  log (apply_all j (task_writes tid path w)) = log j ++ run_log tid path w
  /\ match snd (task_result tid path w) with
     | Ok _ =>
         status (apply_all j (task_writes tid path w)) = done
         /\ percent (apply_all j (task_writes tid path w)) = 100%Z
         /\ file (apply_all j (task_writes tid path w)) = Some (out_path tid)
     | Raise _ =>
         status (apply_all j (task_writes tid path w)) = error
         /\ file (apply_all j (task_writes tid path w)) = None
     end.
Proof.
  intros Hq Hf. split.
  - rewrite (log_apply_all _ _ (task_writes_fields tid path w)).
    by rewrite log_writes_run.
  - destruct (final_job tid path w j Hq Hf)
      as (s0 & n & k & r & E & Hs0 & Hf0 & Hl).
    rewrite replay_last in Hl. injection Hl as Hl. rewrite Hl, E. cbn [snd].
    destruct r; cbn; auto.
Qed.

(** X18. An accepted upload followed by the run of its job, as the polling
    routes then show it. The handle is returned. When the document is
    processed and the sheet written, [get_progress] gives the job [done]
    with percent 100, the result path of the handle and the log "uploaded
    <name>" followed by the entries of the run, [download_result] serves
    that path, and the sheet is on disk there. When the run fails,
    [get_progress] gives the job in [error] with no result path and the
    same shape of log, and [download_result] answers 400 "not ready". *)
Theorem upload_run_poll up w :
  endswith (u ".pdf") (lower (filename up)) = true ->
  store_error up = None -> uuid_task up <> [] ->
  fst (submit_and_run up w) = Ok (TaskId (uuid_task up))
  /\ (forall df,
      snd (task_result (uuid_task up) (save_path_of up)
             (snd (upload_pdf up w))) = Ok df ->
      get_progress (uuid_task up) (snd (submit_and_run up w))
      = JobDict {| status := done; percent := 100;
                   log := (u "uploaded " ++ filename up)
                          :: run_log (uuid_task up) (save_path_of up)
                               (snd (upload_pdf up w));
                   file := Some (out_path (uuid_task up)) |}
      /\ download_result (uuid_task up) (snd (submit_and_run up w))
         = FileResponse (out_path (uuid_task up))
             (basename (out_path (uuid_task up))) XLSX_MEDIA
      /\ outputs (snd (submit_and_run up w)) !! out_path (uuid_task up)
         = Some (to_excel df))
  /\ (forall e,
      snd (task_result (uuid_task up) (save_path_of up)
             (snd (upload_pdf up w))) = Raise e ->
      (exists p,
         get_progress (uuid_task up) (snd (submit_and_run up w))
         = JobDict {| status := error; percent := p;
                      log := (u "uploaded " ++ filename up)
                             :: run_log (uuid_task up) (save_path_of up)
                                  (snd (upload_pdf up w));
                      file := None |})
      /\ download_result (uuid_task up) (snd (submit_and_run up w))
         = JSONResponse 400 (u "not ready")).
Proof.
  intros Hn Hs Hne. unfold submit_and_run, bind.
  rewrite (upload_accepted _ _ Hn Hs). cbn [snd fst].
  set (w' := {| tasks := _ |}).
  assert (Hj : tasks w' !! uuid_task up = Some (new_job up))
    by (cbn; by rewrite lookup_insert_eq).
  pose proof (process_task_run _ (save_path_of up) _ _ Hj Hne) as Hrun.
  pose proof (final_registry _ (save_path_of up) _ _ Hj Hne) as Hfin.
  unfold job_history in Hfin. rewrite replay_last in Hfin.
  destruct (run_final_fields (uuid_task up) (save_path_of up) w' (new_job up))
    as [Hlog Hrest]; [done|done|].
  destruct (process_task (uuid_task up) (save_path_of up) w')
    as [res w''] eqn:Ep.
  injection Hrun as -> Hw''. unfold ret. cbn [fst snd] in Hfin |- *.
  split; [done|].
  rewrite (get_progress_of_job _ _ _ Hfin), (download_of_job _ _ _ Hfin).
  split.
  - intros df Edf. rewrite Edf in Hrest. destruct Hrest as (Hs' & Hp' & Hf').
    split_and!.
    + f_equal. rewrite <- (job_eta (apply_all _ _)).
      by rewrite Hs', Hp', Hf', Hlog.
    + rewrite Hs', Hf'. cbn. by rewrite out_path_truthy.
    + rewrite Hw''. unfold set_outputs, task_outputs. cbn [outputs].
      rewrite Edf. by rewrite lookup_insert_eq.
  - intros e Ee. rewrite Ee in Hrest. destruct Hrest as (Hs' & Hf').
    split.
    + eexists. f_equal. rewrite <- (job_eta (apply_all _ _)).
      by rewrite Hs', Hf', Hlog.
    + by rewrite Hf'.
Qed.

(** ** The image column *)

Lemma save_images_run path pno1 : forall imgs ii saved l,
  save_images (splitext_root (basename path)) pno1 ii imgs saved = Ok l ->
  Forall (fun im => image_error im = None) imgs
  /\ l = saved
         ++ imap (fun k im => image_path path pno1 (ii + k) (image_ext im))
              imgs.
Proof.
  induction imgs as [|im imgs IH]; intros ii saved l E; cbn [save_images] in E.
  - injection E as <-. split; [constructor|]. by rewrite app_nil_r.
  - destruct (extract_image im) as [ext|e] eqn:Ex; [|done].
    destruct (write_image im) as [e|] eqn:Ew; [done|].
    apply IH in E as [HF ->]. split.
    + constructor; [|done]. unfold image_error. by rewrite Ex.
    + rewrite <- app_assoc. f_equal. rewrite imap_cons. cbn [app]. f_equal.
      * unfold image_path, image_ext. rewrite Ex, Nat.add_0_r.
        by destruct ext.
      * apply imap_ext. intros k x _. cbn. by rewrite Nat.add_succ_r.
Qed.

Lemma save_images_raise stem pno1 : forall imgs ii saved im,
  im ∈ imgs -> image_error im <> None ->
  exists e, save_images stem pno1 ii imgs saved = Raise e.
Proof using.
  induction imgs as [|x imgs IH]; intros ii saved im Hin Hne.
  - by apply elem_of_nil in Hin.
  - cbn [save_images]. destruct (extract_image x) as [ext|e] eqn:Ex;
      [|by eexists].
    destruct (write_image x) as [e|] eqn:Ew; [by eexists|].
    apply elem_of_cons in Hin as [-> | Hin].
    + unfold image_error in Hne. by rewrite Ex, Ew in Hne.
    + by apply (IH _ _ im).
Qed.

(** X21. When a page gives rows, every embedded image of the page was
    extracted and written out, and the image column of each row of the
    page is the list, joined by [;], of one file per embedded image, in
    the order of the page and numbered from 0, with the extension the
    library reports or [png], followed by the raster of the page. One
    embedded image that cannot be extracted or written makes the page
    raise. *)
Theorem page_image_column path pno pg rows :
  (forall rows1, page_rows path pno pg rows = Ok rows1 ->
     Forall (fun im => image_error im = None) (get_images pg)
     /\ exists g, rows1 = rows ++ g
          /\ Forall (fun r => local_images r
                              = join (u ";") (page_files path pno pg)) g)
  /\ (forall im, im ∈ get_images pg -> image_error im <> None ->
      exists e, page_rows path pno pg rows = Raise e).
Proof.
  split.
  - intros rows1. unfold page_rows. destruct (get_pixmap pg); [done|].
    destruct (ocr pg) as [o|]; [|done]. destruct (img_save pg); [done|].
    destruct (save_images _ _ _ _ _) as [saved|] eqn:Es; [|done].
    intros [= <-]. apply save_images_run in Es as [HF ->].
    split; [exact HF|].
    match goal with
    | |- exists g, chunk_rows ?s ?p ?im ?c ?r = _ /\ _ =>
        destruct (chunk_rows_new s p im c r) as (g & E & Hg)
    end.
    exists g. split; [exact E|].
    eapply Forall_impl; [exact Hg|]. intros r (_ & _ & _ & _ & _ & _ & ->).
    done.
  - intros im Hin Hne. unfold page_rows.
    destruct (get_pixmap pg); [by eexists|].
    destruct (ocr pg) as [o|]; [|by eexists].
    destruct (img_save pg); [by eexists|].
    destruct (save_images_raise (splitext_root (basename path))
                (Z.of_nat (S pno)) (get_images pg) 0 [] im Hin Hne)
      as [e ->].
    by eexists.
Qed.

(** ** The percent of a run that fails *)

Lemma page_writes_last_percent total : forall k tick pno j,
  percent (apply_all j (page_writes total tick pno k))
  = match k with
    | O => percent j
    | S _ => pct (Z.of_nat (pno + k)) total
    end.
Proof.
  induction k as [|k IH]; intros tick pno j; [done|].
  cbn [page_writes page_write app].
  change (apply_all j (?a :: ?b :: ?l))
    with (apply_all (apply_write b (apply_write a j)) l).
  rewrite IH. destruct k as [|k].
  - cbn. by rewrite Nat.add_1_r.
  - f_equal. lia.
Qed.

(** X22. A run that fails leaves in percent the progress of the last page
    that was completed: 1 when no page was, the value reported after page k
    of n when k pages were. In particular a run whose pages are all
    processed and whose sheet cannot be written ends in [error] with the
    percent of the last page. *)
Theorem failed_run_percent tid path w j n k e :
  tasks w !! tid = Some j -> tid <> [] ->
  task_result tid path w = (n, k, Raise e) ->
  exists s, tasks (snd (process_task tid path w)) !! tid = Some s
    /\ status s = error
    /\ percent s = match k with
                   | O => 1%Z
                   | S _ => pct (Z.of_nat k) (Z.of_nat n)
                   end
    /\ (k <= n)%nat.
Proof.
  intros H Hne E. rewrite (final_registry _ _ _ _ H Hne).
  unfold job_history. rewrite replay_last. eexists. split; [done|].
  destruct (task_result_pages _ _ _ _ _ _ E) as [Hk _].
  unfold task_writes. rewrite E. rewrite !apply_all_app.
  cbn [ending_writes]. split_and!; [done| |done].
  change (percent (apply_all ?s [WStatus error; WLog e])) with (percent s).
  rewrite page_writes_last_percent. by destruct k.
Qed.

End App.

(** ** The sample server *)

Local Abbreviation run_task :=
  (process_task ascii_tables ascii_tables sample_base sample_clock
     sample_open sample_excel ascii_tables).
Local Abbreviation history :=
  (job_history ascii_tables ascii_tables sample_base sample_clock
     sample_open sample_excel).
Local Abbreviation sample_writes :=
  (task_writes ascii_tables ascii_tables sample_base sample_clock
     sample_open sample_excel).
Local Abbreviation sample_result :=
  (task_result ascii_tables ascii_tables sample_base sample_open sample_excel).
Local Abbreviation TT := (u "tt").

Lemma sample_job_known bytes :
  tasks (sample_world bytes) !! TT = Some sample_job.
Proof. apply lookup_singleton_eq. Defined.

(** C1, as stated, fails: on a page where both recognition calls raise,
    the recognised text is not empty, it is an exception, and the job ends
    in [error]. *)
Lemma ocr_failure_is_fatal :
  ~ ocr_failure_absorbed ocr_dead_page
  /\ status <$> (tasks (snd (run_task TT sample_path (sample_world [3]))) !! TT)
     = Some error.
Proof.
  split.
  - intros H. specialize (H _ _ eq_refl eq_refl). discriminate H.
  - vm_compute. reflexivity.
Qed.

Lemma ocr_fallback_then_error_witness :
  exists s,
    tasks (snd (run_task TT sample_path (sample_world [3]))) !! TT = Some s
    /\ status s = error /\ file s = None
    /\ last (log s) = Some (u "tesseract is not installed").
Proof.
  apply (proj2 (proj2 (ocr_fallback_then_error ascii_tables ascii_tables
           sample_base sample_clock sample_open sample_excel ascii_tables))
           TT sample_path (sample_world [3]) sample_job
           [] ocr_dead_page [] [] (u "chi_sim not installed")).
  - apply sample_job_known.
  - discriminate.
  - reflexivity.
  - reflexivity.
  - vm_compute. reflexivity.
  - reflexivity.
  - reflexivity.
  - reflexivity.
  - reflexivity.
Defined.

(** C2, as stated, fails: with 101 pages percent goes from 1 back to 0
    after the first page; and after page 29 of 100 percent is 28, not the
    quotient 29 rounded down. *)
Lemma percent_decreases_101_pages :
  ~ nondecreasing
      (processing_percents (history TT sample_path (sample_world [4]) sample_job))
  /\ pct 29 100 <> (29 * 100 / 100)%Z.
Proof.
  split.
  - intros H.
    assert (H1 : (1 <= 0)%Z).
    { apply (adjacent_lookup Z.le _ 2%nat 1%Z 0%Z H).
      - vm_compute. reflexivity.
      - vm_compute. reflexivity. }
    lia.
  - vm_compute. discriminate.
Qed.

Lemma percent_progress_witness :
  status sample_job = queued /\ file sample_job = None
  /\ (percent sample_job <= 1)%Z
  /\ nondecreasing
       (processing_percents (history TT sample_path (sample_world [1]) sample_job)).
Proof.
  split_and!; [reflexivity|reflexivity|vm_compute; discriminate|].
  refine (proj1 (proj1 (percent_progress ascii_tables ascii_tables
           sample_base sample_clock sample_open sample_excel TT sample_path
           (sample_world [1]) sample_job
           (fst (fst (sample_result TT sample_path (sample_world [1]))))
           (snd (fst (sample_result TT sample_path (sample_world [1]))))
           (snd (sample_result TT sample_path (sample_world [1])))
           _ _ _ _) _)).
  - reflexivity.
  - reflexivity.
  - vm_compute. discriminate.
  - by destruct (sample_result TT sample_path (sample_world [1])) as [[? ?] ?].
  - apply Nat.leb_le. vm_compute. reflexivity.
Defined.

(** C3, as stated, fails: the sheet of a document without segments has no
    header row of six columns. *)
Lemma empty_document_has_no_header :
  status <$> (tasks (snd (run_task TT sample_path (sample_world [2]))) !! TT)
  = Some done
  /\ outputs (snd (run_task TT sample_path (sample_world [2])))
       !! out_path sample_base TT
     <> Some {| header := row_keys; body := [] |}.
Proof.
  split.
  - vm_compute. reflexivity.
  - vm_compute. intros H. discriminate H.
Qed.

Lemma empty_document_sheet_witness :
  (exists s,
     tasks (snd (run_task TT sample_path (sample_world [2]))) !! TT = Some s
     /\ status s = done /\ percent s = 100%Z
     /\ file s = Some (out_path sample_base TT))
  /\ outputs (snd (run_task TT sample_path (sample_world [2])))
       !! out_path sample_base TT
     = Some {| header := []; body := [] |}.
Proof.
  destruct (empty_document_sheet ascii_tables ascii_tables sample_base
              sample_clock sample_open sample_excel ascii_tables TT sample_path
              (sample_world [2]) sample_job [blank_sample_page] 1%nat [])
    as (H1 & H2 & _).
  - apply sample_job_known.
  - discriminate.
  - vm_compute. reflexivity.
  - vm_compute. reflexivity.
  - reflexivity.
  - split; [exact H1|exact H2].
Defined.

(** C4, as stated, fails: after the status of a job is [done], its result
    path is still to be set. *)
Lemma done_job_still_modified :
  ~ (status_moves (history TT sample_path (sample_world [2]) sample_job)
     /\ frozen_when_terminal
          (history TT sample_path (sample_world [2]) sample_job)).
Proof.
  intros [_ H].
  remember (history TT sample_path (sample_world [2]) sample_job) as h eqn:E.
  vm_compute in E. subst h. unfold frozen_when_terminal in H.
  cbn [adjacent] in H.
  destruct H as (_ & _ & _ & _ & _ & _ & H & _).
  destruct H as (_ & _ & H); [by left|]. discriminate H.
Qed.

Lemma job_state_machine_witness :
  tasks (sample_world [1]) !! TT = Some sample_job /\ TT <> []
  /\ status sample_job = queued /\ file sample_job = None
  /\ status_moves (history TT sample_path (sample_world [1]) sample_job).
Proof.
  split_and!; [apply sample_job_known|discriminate|reflexivity|reflexivity|].
  apply (job_state_machine ascii_tables ascii_tables sample_base sample_clock
           sample_open sample_excel ascii_tables TT sample_path (sample_world [1])
           sample_job).
  - apply sample_job_known.
  - discriminate.
  - reflexivity.
  - reflexivity.
Defined.

(** C5, as stated, fails: right after the status is set to [done] the job
    has no result path yet. *)
Lemma done_without_path :
  ~ path_iff_done (history TT sample_path (sample_world [2]) sample_job).
Proof.
  intros H.
  remember (history TT sample_path (sample_world [2]) sample_job) as h eqn:E.
  vm_compute in E. subst h. unfold path_iff_done in H.
  rewrite !Forall_cons in H.
  destruct H as (_ & _ & _ & _ & _ & _ & [_ H] & _).
  by apply H.
Qed.

Lemma result_path_only_when_done_witness :
  status sample_job = queued /\ file sample_job = None
  /\ Forall (fun s => file s <> None -> status s = done)
       (history TT sample_path (sample_world [1]) sample_job).
Proof.
  split_and!; [reflexivity|reflexivity|].
  apply (result_path_only_when_done ascii_tables ascii_tables sample_base
           sample_clock sample_open sample_excel TT sample_path
           (sample_world [1]) sample_job); reflexivity.
Defined.

(** C6, as stated, fails: the empty text has no marker and gives no
    segment at all. *)
Lemma blank_text_gives_no_segment :
  ~ (forall text,
       ~ has_marker ascii_tables ascii_tables text ->
       page_segments ascii_tables ascii_tables (u "a.pdf") 1 [] text
       = [strip ascii_tables text]).
Proof.
  intros H. specialize (H []).
  assert (Hn : ~ has_marker ascii_tables ascii_tables []).
  { apply search_marker_none. reflexivity. }
  specialize (H Hn). vm_compute in H. discriminate H.
Qed.

Lemma page_segments_split_witness :
  ~ has_marker ascii_tables ascii_tables (u " plain prose ")
  /\ strip ascii_tables (u " plain prose ") <> []
  /\ page_segments ascii_tables ascii_tables (u "a.pdf") 1 [] (u " plain prose ")
     = [u "plain prose"].
Proof.
  assert (Hn : ~ has_marker ascii_tables ascii_tables (u " plain prose ")).
  { apply search_marker_none. vm_compute. reflexivity. }
  assert (Hs : strip ascii_tables (u " plain prose ") <> [])
    by (vm_compute; discriminate).
  split_and!; [exact Hn|exact Hs|].
  destruct (page_segments_split ascii_tables ascii_tables (u "a.pdf") 1 []
              (u " plain prose ")) as (_ & _ & _ & H & _).
  exact (H Hn Hs).
Defined.

Lemma classify_question_priority_witness :
  tokens_not_space ascii_tables
  /\ classify_question ascii_tables ascii_tables (Some (u "pick A. or B."))
     = label_choice.
Proof.
  assert (Ht : tokens_not_space ascii_tables) by (repeat constructor).
  split; [exact Ht|].
  destruct (classify_question_priority ascii_tables ascii_tables
              (u "pick A. or B.") Ht) as (_ & _ & _ & _ & H & _).
  apply H. exists (u "A."). split.
  - apply list_elem_of_further, list_elem_of_here.
  - exists (u "pick "), (u " or B."). reflexivity.
Defined.

(** C9, as stated, fails: the entry appended when the job goes to [error]
    is the bare string of the exception. *)
Lemma error_entry_has_no_timestamp :
  ~ Forall timestamped
      (log_writes (sample_writes TT sample_path (sample_world [9]))).
Proof.
  intros H.
  assert (E : last (log_writes (sample_writes TT sample_path (sample_world [9])))
              = Some (u "cannot open broken document"))
    by (vm_compute; reflexivity).
  apply last_Some_elem_of in E. rewrite Forall_forall in H.
  apply H in E. apply timestamped_head in E as (c & t & E & Hc).
  injection E as <- _. vm_compute in Hc. destruct Hc as [_ Hc]. by apply Hc.
Qed.

Lemma log_entries_witness :
  status sample_job = queued /\ file sample_job = None
  /\ append_only (history TT sample_path (sample_world [1]) sample_job).
Proof.
  split_and!; [reflexivity|reflexivity|].
  apply (log_entries ascii_tables ascii_tables sample_base sample_clock
           sample_open sample_excel TT sample_path (sample_world [1])
           sample_job); reflexivity.
Defined.

(** C10, as stated, fails: an upload with a [.pdf] name whose bytes cannot
    be stored creates no job. *)
Lemma accepted_name_without_job :
  pdf_name (filename unstorable_upload)
  /\ ~ name_creates_job sample_base unstorable_upload empty_world
  /\ tasks (snd (upload_pdf sample_base unstorable_upload empty_world))
       !! uuid_task unstorable_upload
     = None.
Proof.
  assert (Hp : pdf_name (filename unstorable_upload)).
  { apply pdf_name_spec. vm_compute. reflexivity. }
  split; [exact Hp|]. split.
  - intros H. destruct (H Hp) as (call & w' & j & E & _).
    vm_compute in E. discriminate E.
  - vm_compute. reflexivity.
Qed.

Lemma upload_checks_name_only_witness :
  pdf_name (filename (sample_upload [9]))
  /\ store_error (sample_upload [9]) = None
  /\ exists s,
       tasks (snd (submit_and_run ascii_tables ascii_tables sample_base
                     sample_clock sample_open sample_excel ascii_tables
                     (sample_upload [9]) empty_world)) !! TT = Some s
       /\ status s = error /\ file s = None
       /\ last (log s) = Some (u "cannot open broken document").
Proof.
  destruct (upload_checks_name_only ascii_tables ascii_tables sample_base
              sample_clock sample_open sample_excel ascii_tables (sample_upload [9])
              empty_world) as (Hname & _ & _ & _ & H & _).
  assert (Hp : pdf_name (filename (sample_upload [9]))).
  { apply Hname. vm_compute. reflexivity. }
  split_and!; [exact Hp|reflexivity|].
  apply (H (u "cannot open broken document") Hp).
  - reflexivity.
  - discriminate.
  - reflexivity.
Defined.

(** ** Further examples on the sample server *)

Local Abbreviation W1 := (sample_world [1]).
Local Abbreviation full_disk :=
  {| filename := u "a.pdf"; content := [1]; uuid_file := u "ff";
     uuid_task := u "tt"; store_error := Some (u "disk full") |}.
Local Abbreviation two_jobs :=
  {| tasks := {[ u "tt" := sample_job; u "vv" := sample_job ]};
     uploads := {[ sample_path := [1] ]};
     outputs := ∅; ticks := 0; writes := [] |}.
Local Abbreviation sample_rows :=
  (extract_rows ascii_tables ascii_tables sample_base sample_path 0
     [text_page (u "1. foo $x$" ++ [LF] ++ u "2. bar A."); blank_sample_page]
     []).

Lemma sample_handle_relative : SEP ∉ TT.
Proof.
  intros H. apply list_elem_of_In in H. vm_compute in H.
  destruct H as [H|[H|[]]]; discriminate H.
Defined.

Lemma update_progress_missing_handle_witness :
  tasks W1 !! u "zz" = None
  /\ update_progress sample_clock ascii_tables (u "zz") (Some 5%Z) (Some (u "hi")) W1
     = (Ok tt, W1).
Proof.
  assert (H : tasks W1 !! u "zz" = None) by (vm_compute; reflexivity).
  split; [exact H|].
  exact (update_progress_missing_handle sample_clock ascii_tables (u "zz") (Some 5%Z)
           (Some (u "hi")) W1 H).
Defined.

Lemma update_progress_known_handle_witness :
  tasks W1 !! TT = Some sample_job
  /\ exists w',
       update_progress sample_clock ascii_tables TT (Some 5%Z) (Some (u "hi")) W1
       = (Ok tt, w')
       /\ tasks w'
          = <[TT := progressed sample_clock sample_job (Some 5%Z)
                      (Some (u "hi")) 0]> (tasks W1)
       /\ uploads w' = uploads W1 /\ outputs w' = outputs W1.
Proof.
  split; [apply sample_job_known|].
  exact (update_progress_known_handle sample_clock ascii_tables TT (Some 5%Z)
           (Some (u "hi")) W1 sample_job (sample_job_known [1])).
Defined.

Lemma process_task_missing_handle_witness :
  tasks W1 !! u "zz" = None
  /\ exists e, run_task (u "zz") sample_path W1 = (Raise e, W1).
Proof.
  assert (H : tasks W1 !! u "zz" = None) by (vm_compute; reflexivity).
  split; [exact H|].
  exact (process_task_missing_handle ascii_tables ascii_tables sample_base
           sample_clock sample_open sample_excel ascii_tables (u "zz") sample_path W1 H).
Defined.

Lemma process_task_ends_terminal_witness :
  tasks W1 !! TT = Some sample_job /\ TT <> []
  /\ exists w' s, run_task TT sample_path W1 = (Ok tt, w')
       /\ tasks w' !! TT = Some s
       /\ terminal (status s)
       /\ (status s = done
           <-> exists df, snd (sample_result TT sample_path W1) = Ok df)
       /\ (status s = done ->
           file s = Some (out_path sample_base TT) /\ percent s = 100%Z)
       /\ (log sample_job `prefix_of` log s).
Proof.
  assert (Hn : TT <> []) by discriminate.
  split; [apply sample_job_known|]. split; [exact Hn|].
  exact (process_task_ends_terminal ascii_tables ascii_tables sample_base
           sample_clock sample_open sample_excel ascii_tables TT sample_path W1 sample_job
           (sample_job_known [1]) Hn).
Defined.

Lemma run_result_files_witness :
  tasks W1 !! TT = Some sample_job /\ TT <> []
  /\ (forall e,
        extract_df ascii_tables ascii_tables sample_base sample_open
          sample_path W1 = Raise e ->
        outputs (snd (run_task TT sample_path W1)) = outputs W1)
  /\ (forall df, snd (sample_result TT sample_path W1) = Ok df ->
        outputs (snd (run_task TT sample_path W1))
        = <[out_path sample_base TT := to_excel df]> (outputs W1))
  /\ uploads (snd (run_task TT sample_path W1)) = uploads W1.
Proof.
  assert (Hn : TT <> []) by discriminate.
  split; [apply sample_job_known|]. split; [exact Hn|].
  exact (run_result_files ascii_tables ascii_tables sample_base
           sample_clock sample_open sample_excel ascii_tables TT sample_path W1 sample_job
           (sample_job_known [1]) Hn).
Defined.

Lemma run_leaves_log_witness :
  tasks W1 !! TT = Some sample_job /\ TT <> []
  /\ exists s, tasks (snd (run_task TT sample_path W1)) !! TT = Some s
       /\ log s
          = log sample_job
            ++ run_log ascii_tables ascii_tables sample_base sample_clock
                 sample_open sample_excel TT sample_path W1
       /\ length (run_log ascii_tables ascii_tables sample_base sample_clock
                    sample_open sample_excel TT sample_path W1)
          = (2 + snd (fst (sample_result TT sample_path W1)))%nat.
Proof.
  assert (Hn : TT <> []) by discriminate.
  split; [apply sample_job_known|]. split; [exact Hn|].
  exact (run_leaves_log ascii_tables ascii_tables sample_base
           sample_clock sample_open sample_excel ascii_tables TT sample_path W1 sample_job
           (sample_job_known [1]) Hn).
Defined.

Lemma upload_store_failure_witness :
  endswith (u ".pdf") (lower (filename full_disk)) = true
  /\ store_error full_disk = Some (u "disk full")
  /\ fst (upload_pdf sample_base full_disk empty_world) = Raise (u "disk full")
  /\ tasks (snd (upload_pdf sample_base full_disk empty_world))
     = tasks empty_world.
Proof.
  assert (H : endswith (u ".pdf") (lower (filename full_disk)) = true)
    by (vm_compute; reflexivity).
  split; [exact H|]. split; [reflexivity|].
  exact (upload_store_failure sample_base full_disk empty_world
           (u "disk full") H eq_refl).
Defined.

Lemma download_after_run_witness :
  tasks W1 !! TT = Some sample_job /\ TT <> [] /\ (SEP ∉ TT)
  /\ (forall df, snd (sample_result TT sample_path W1) = Ok df ->
        download_result TT (snd (run_task TT sample_path W1))
        = FileResponse (out_path sample_base TT)
            (u "result_" ++ TT ++ u ".xlsx") XLSX_MEDIA
        /\ outputs (snd (run_task TT sample_path W1))
             !! out_path sample_base TT
           = Some (to_excel df))
  /\ (forall e, snd (sample_result TT sample_path W1) = Raise e ->
        download_result TT (snd (run_task TT sample_path W1))
        = JSONResponse 400 (u "not ready")).
Proof.
  assert (Hn : TT <> []) by discriminate.
  split; [apply sample_job_known|]. split; [exact Hn|].
  split; [exact sample_handle_relative|].
  exact (download_after_run ascii_tables ascii_tables sample_base
           sample_clock sample_open sample_excel ascii_tables TT sample_path W1 sample_job
           (sample_job_known [1]) Hn sample_handle_relative).
Defined.

Lemma download_during_run_witness :
  status sample_job = queued /\ file sample_job = None
  /\ set_status processing sample_job ∈ history TT sample_path W1 sample_job
  /\ tasks (snd (write_job ascii_tables TT (WStatus processing) W1)) !! TT
     = Some (set_status processing sample_job)
  /\ (download_result TT (snd (write_job ascii_tables TT (WStatus processing) W1))
      = JSONResponse 400 (u "not ready")
      \/ (download_result TT (snd (write_job ascii_tables TT (WStatus processing) W1))
          = FileResponse (out_path sample_base TT)
              (basename (out_path sample_base TT)) XLSX_MEDIA
          /\ status (set_status processing sample_job) = done)).
Proof.
  assert (Hin : set_status processing sample_job
                ∈ history TT sample_path W1 sample_job).
  { apply list_elem_of_In. vm_compute. right. left. reflexivity. }
  assert (Hl : tasks (snd (write_job ascii_tables TT (WStatus processing) W1)) !! TT
               = Some (set_status processing sample_job))
    by (vm_compute; reflexivity).
  split; [reflexivity|]. split; [reflexivity|]. split; [exact Hin|].
  split; [exact Hl|].
  exact (download_during_run ascii_tables ascii_tables sample_base
           sample_clock sample_open sample_excel TT sample_path W1 sample_job
           (set_status processing sample_job)
           (snd (write_job ascii_tables TT (WStatus processing) W1))
           eq_refl eq_refl Hin Hl).
Defined.

Lemma polling_after_upload_witness :
  endswith (u ".pdf") (lower (filename (sample_upload [1]))) = true
  /\ store_error (sample_upload [1]) = None
  /\ get_progress TT (snd (upload_pdf sample_base (sample_upload [1]) empty_world))
     = JobDict sample_job
  /\ download_result TT
       (snd (upload_pdf sample_base (sample_upload [1]) empty_world))
     = JSONResponse 400 (u "not ready").
Proof.
  assert (H : endswith (u ".pdf") (lower (filename (sample_upload [1]))) = true)
    by (vm_compute; reflexivity).
  split; [exact H|]. split; [reflexivity|].
  destruct (polling_after_upload sample_base (sample_upload [1]) empty_world
              H eq_refl) as (H1 & H2 & _).
  split; [exact H1|exact H2].
Defined.

Lemma rows_grouped_by_page_witness :
  sample_rows
  = (fst sample_rows, Ok (match snd sample_rows with Ok r => r | Raise _ => [] end))
  /\ length (match snd sample_rows with Ok r => r | Raise _ => [] end) = 2%nat
  /\ Forall (fun r => (1 <= page r <= 2)%Z)
       (match snd sample_rows with Ok r => r | Raise _ => [] end).
Proof.
  assert (H : sample_rows
              = (fst sample_rows,
                 Ok (match snd sample_rows with Ok r => r | Raise _ => [] end)))
    by (vm_compute; reflexivity).
  split; [exact H|]. split; [vm_compute; reflexivity|].
  exact (proj2 (rows_grouped_by_page ascii_tables ascii_tables sample_base
                  sample_path _ _ _ H)).
Defined.

Lemma classify_ignores_outer_whitespace_witness :
  Forall (fun c => isspace ascii_tables c = true) (u "  ")
  /\ Forall (fun c => isspace ascii_tables c = true) [LF]
  /\ classify_question ascii_tables ascii_tables
       (Some (u "  " ++ u "pick A." ++ [LF]))
     = classify_question ascii_tables ascii_tables (Some (u "pick A.")).
Proof.
  assert (Ha : Forall (fun c => isspace ascii_tables c = true) (u "  "))
    by (repeat constructor).
  assert (Hb : Forall (fun c => isspace ascii_tables c = true) [LF])
    by (repeat constructor).
  split; [exact Ha|]. split; [exact Hb|].
  exact (proj1 (classify_ignores_outer_whitespace ascii_tables ascii_tables
                  (u "  ") (u "pick A.") [LF] Ha Hb)).
Defined.

Lemma percent_within_bounds_witness :
  (fst (fst (sample_result TT sample_path W1)) <= 100)%nat
  /\ (0 <= percent sample_job <= 100)%Z
  /\ Forall (fun s => (0 <= percent s <= 100)%Z)
       (history TT sample_path W1 sample_job)
  /\ Forall (fun v => (1 <= v <= 100)%Z)
       (percent_writes (sample_writes TT sample_path W1)).
Proof.
  assert (Hn : (fst (fst (sample_result TT sample_path W1)) <= 100)%nat)
    by (apply Nat.leb_le; vm_compute; reflexivity).
  assert (Hp : (0 <= percent sample_job <= 100)%Z)
    by (split; vm_compute; discriminate).
  split; [exact Hn|]. split; [exact Hp|].
  refine (percent_within_bounds ascii_tables ascii_tables sample_base
            sample_clock sample_open sample_excel TT sample_path W1 sample_job
            (fst (fst (sample_result TT sample_path W1)))
            (snd (fst (sample_result TT sample_path W1)))
            (snd (sample_result TT sample_path W1)) _ Hn Hp).
  by destruct (sample_result TT sample_path W1) as [[? ?] ?].
Defined.

Lemma runs_do_not_interfere_witness :
  tasks two_jobs !! TT = Some sample_job
  /\ tasks two_jobs !! u "vv" = Some sample_job
  /\ TT <> u "vv" /\ TT <> [] /\ u "vv" <> []
  /\ tasks (snd (run_task (u "vv") sample_path
                   (snd (run_task TT sample_path two_jobs)))) !! TT
     = tasks (snd (run_task TT sample_path two_jobs)) !! TT
  /\ sample_result (u "vv") sample_path (snd (run_task TT sample_path two_jobs))
     = sample_result (u "vv") sample_path two_jobs.
Proof.
  assert (H1 : tasks two_jobs !! TT = Some sample_job)
    by (vm_compute; reflexivity).
  assert (H2 : tasks two_jobs !! u "vv" = Some sample_job)
    by (vm_compute; reflexivity).
  assert (Hd : TT <> u "vv") by (vm_compute; discriminate).
  assert (Hn1 : TT <> []) by discriminate.
  assert (Hn2 : u "vv" <> []) by discriminate.
  split; [exact H1|]. split; [exact H2|]. split; [exact Hd|].
  split; [exact Hn1|]. split; [exact Hn2|].
  destruct (runs_do_not_interfere ascii_tables ascii_tables sample_base
              sample_clock sample_open sample_excel ascii_tables TT (u "vv") sample_path
              sample_path two_jobs sample_job sample_job H1 H2 Hd Hn1 Hn2)
    as (Ha & Hb & _).
  split; [exact Ha|exact Hb].
Defined.

Lemma page_images_distinct_witness :
  0%nat <> 1%nat
  /\ page_image sample_base sample_path 1 <> page_image sample_base sample_path 2.
Proof.
  assert (H : 0%nat <> 1%nat) by discriminate.
  split; [exact H|].
  exact (page_images_distinct sample_base sample_path 0 1 H).
Defined.

Lemma upload_run_poll_witness :
  endswith (u ".pdf") (lower (filename (sample_upload [1]))) = true
  /\ store_error (sample_upload [1]) = None
  /\ uuid_task (sample_upload [1]) <> []
  /\ fst (submit_and_run ascii_tables ascii_tables sample_base sample_clock
            sample_open sample_excel ascii_tables (sample_upload [1]) empty_world)
     = Ok (TaskId TT)
  /\ download_result TT
       (snd (submit_and_run ascii_tables ascii_tables sample_base sample_clock
               sample_open sample_excel ascii_tables (sample_upload [1]) empty_world))
     = FileResponse (out_path sample_base TT)
         (basename (out_path sample_base TT)) XLSX_MEDIA.
Proof.
  assert (H : endswith (u ".pdf") (lower (filename (sample_upload [1]))) = true)
    by (vm_compute; reflexivity).
  assert (Hne : uuid_task (sample_upload [1]) <> []) by discriminate.
  split; [exact H|]. split; [reflexivity|]. split; [exact Hne|].
  destruct (upload_run_poll ascii_tables ascii_tables sample_base sample_clock
              sample_open sample_excel ascii_tables (sample_upload [1]) empty_world
              H eq_refl Hne) as (H1 & H2 & _).
  split; [exact H1|].
  assert (E : exists df,
             snd (sample_result (uuid_task (sample_upload [1]))
                    (save_path_of sample_base (sample_upload [1]))
                    (snd (upload_pdf sample_base (sample_upload [1])
                            empty_world))) = Ok df)
    by (vm_compute; eexists; reflexivity).
  destruct E as [df E].
  exact (proj1 (proj2 (H2 df E))).
Defined.

Lemma embedded_images_distinct_witness :
  (0%nat, 0%nat) <> (0%nat, 1%nat)
  /\ image_path sample_base sample_path 1 0 (u "png")
     <> image_path sample_base sample_path 1 1 (u "png").
Proof.
  assert (H : (0%nat, 0%nat) <> (0%nat, 1%nat)) by discriminate.
  split; [exact H|].
  exact (embedded_images_distinct sample_base sample_path 0 0 0 1
           (u "png") (u "png") H).
Defined.

Lemma failed_run_percent_witness :
  tasks (sample_world [3]) !! TT = Some sample_job /\ TT <> []
  /\ sample_result TT sample_path (sample_world [3])
     = (1%nat, 0%nat, Raise (u "tesseract is not installed"))
  /\ exists s,
       tasks (snd (run_task TT sample_path (sample_world [3]))) !! TT = Some s
       /\ status s = error /\ percent s = 1%Z /\ (0 <= 1)%nat.
Proof.
  assert (Hn : TT <> []) by discriminate.
  assert (E : sample_result TT sample_path (sample_world [3])
              = (1%nat, 0%nat, Raise (u "tesseract is not installed")))
    by (vm_compute; reflexivity).
  split; [apply sample_job_known|]. split; [exact Hn|]. split; [exact E|].
  exact (failed_run_percent ascii_tables ascii_tables sample_base sample_clock
           sample_open sample_excel ascii_tables TT sample_path (sample_world [3])
           sample_job 1 0 (u "tesseract is not installed")
           (sample_job_known [3]) Hn E).
Defined.
